(** * Eos: the affection register of the attribute calculator

    A shallow embedding of [eos/fit/calculator/register.py] together with
    the properties the specification states about it.  Python sets and
    dictionaries become [gset] and [gmap]; exceptions become a sum type;
    the logger becomes a list of emitted records.

    Two smaller models follow the register: the boundary of the reactive
    armor hardener simulator and the category table of the effect
    builder.  Their sources are not available; they are written from the
    specification and marked as such. *)

From Stdlib Require QArith.
From stdpp Require Import gmap list fin_maps countable strings.

Set Warnings "-clear-no-such-hyp".

Open Scope Z_scope.

(** ** Constants of [eos.const.eos]

    Modifier fields are plain values in the data, so a modifier can carry
    a domain or a filter which is none of the enumeration's members (the
    test suite uses [tgt_domain=1972]).  Such values are kept as
    [unknown raw]. *)

Module ModDomain.
Inductive t := self | character | ship | other | unknown (raw : Z).

Definition to_sum (d : t) : nat + Z :=
  match d with
  | self => inl 0%nat
  | character => inl 1%nat
  | ship => inl 2%nat
  | other => inl 3%nat
  | unknown z => inr z
  end.

Definition of_sum (s : nat + Z) : t :=
  match s with
  | inl 0%nat => self
  | inl 1%nat => character
  | inl 2%nat => ship
  | inl _ => other
  | inr z => unknown z
  end.
End ModDomain.

Module ModTgtFilter.
Inductive t :=
  item | domain | domain_group | domain_skillrq | owner_skillrq
  | unknown (raw : Z).

Definition to_sum (f : t) : nat + Z :=
  match f with
  | item => inl 0%nat
  | domain => inl 1%nat
  | domain_group => inl 2%nat
  | domain_skillrq => inl 3%nat
  | owner_skillrq => inl 4%nat
  | unknown z => inr z
  end.

Definition of_sum (s : nat + Z) : t :=
  match s with
  | inl 0%nat => item
  | inl 1%nat => domain
  | inl 2%nat => domain_group
  | inl 3%nat => domain_skillrq
  | inl _ => owner_skillrq
  | inr z => unknown z
  end.
End ModTgtFilter.

#[global] Instance ModDomain_eq_dec : EqDecision ModDomain.t.
Proof. solve_decision. Defined.

#[global] Instance ModDomain_countable : Countable ModDomain.t.
Proof.
  apply (inj_countable' ModDomain.to_sum ModDomain.of_sum).
  by intros [].
Defined.

#[global] Instance ModTgtFilter_eq_dec : EqDecision ModTgtFilter.t.
Proof. solve_decision. Defined.

#[global] Instance ModTgtFilter_countable : Countable ModTgtFilter.t.
Proof.
  apply (inj_countable' ModTgtFilter.to_sum ModTgtFilter.of_sum).
  by intros [].
Defined.

(** ** Items, modifiers, affectors

    An item is a Python object compared by identity; [item_id] stands for
    that identity.  The remaining fields are what the register reads from
    an item and from its type: [_type_id], [_type.group_id],
    [_type.required_skills], [_modifier_domain], [_owner_modifiable]. *)

Record Item := {
  item_id : positive;
  _type_id : Z;
  group_id : option Z;
  required_skills : list Z;
  _modifier_domain : option ModDomain.t;
  _owner_modifiable : bool
}.

(** A modifier is compared by identity as well ([modifier_id]); the
    register reads three of its fields. *)

Record Modifier := {
  modifier_id : positive;
  tgt_filter : ModTgtFilter.t;
  tgt_domain : ModDomain.t;
  tgt_filter_extra_arg : option Z
}.

(** [Affector = namedtuple('Affector', ('carrier_item', 'modifier'))]. *)

Record Affector := {
  carrier_item : Item;
  modifier : Modifier
}.

#[global] Instance Item_eq_dec : EqDecision Item.
Proof. solve_decision. Defined.

#[global] Instance Item_countable : Countable Item.
Proof.
  apply (inj_countable'
    (λ x, (item_id x, _type_id x, group_id x, required_skills x,
           _modifier_domain x, _owner_modifiable x))
    (λ '(i, t, g, r, d, o),
       {| item_id := i; _type_id := t; group_id := g; required_skills := r;
          _modifier_domain := d; _owner_modifiable := o |})).
  by intros [].
Defined.

#[global] Instance Modifier_eq_dec : EqDecision Modifier.
Proof. solve_decision. Defined.

#[global] Instance Modifier_countable : Countable Modifier.
Proof.
  apply (inj_countable'
    (λ m, (modifier_id m, tgt_filter m, tgt_domain m, tgt_filter_extra_arg m))
    (λ '(i, f, d, e),
       {| modifier_id := i; tgt_filter := f; tgt_domain := d;
          tgt_filter_extra_arg := e |})).
  by intros [].
Defined.

#[global] Instance Affector_eq_dec : EqDecision Affector.
Proof. solve_decision. Defined.

#[global] Instance Affector_countable : Countable Affector.
Proof.
  apply (inj_countable'
    (λ a, (carrier_item a, modifier a))
    (λ '(c, m), {| carrier_item := c; modifier := m |})).
  by intros [].
Defined.

(** What the register reads from its surroundings: the calculator
    service's [_current_ship] and [_current_char], and every item's
    [_others] (the charge of a module, the module of a charge). *)

Record CalcSvc := {
  _current_ship : option Item;
  _current_char : option Item;
  _others : Item → gset Item
}.

(** ** Exceptions and log records *)

Inductive AffectorError :=
| UnexpectedDomainError (d : ModDomain.t)
| UnknownTgtFilterError (f : ModTgtFilter.t).

(** The two messages [__handle_affector_errors] formats:
    ['malformed modifier on item type {}: unsupported target domain {}'] and
    ['malformed modifier on item type {}: invalid target filter {}']. *)

Inductive LogMessage :=
| unsupported_target_domain (type_id : Z) (d : ModDomain.t)
| invalid_target_filter (type_id : Z) (f : ModTgtFilter.t).

Inductive LogLevel := WARNING.

Record LogRecord := { levelno : LogLevel; msg : LogMessage }.

Definition logger_warning (m : LogMessage) : LogRecord :=
  {| levelno := WARNING; msg := m |}.

(** The carrier type id a log record names. *)

Definition msg_type_id (r : LogRecord) : Z :=
  match msg r with
  | unsupported_target_domain t _ => t
  | invalid_target_filter t _ => t
  end.

(** ** KeyedStorage *)

Module KeyedStorage.
Section defs.
Context {K A : Type} `{Countable K, Countable A}.

(** Modelled from the spec: [eos.util.keyed_storage.KeyedStorage] is not
    among the sources.  The specification describes every index as a
    dictionary from a key to a set of entries; [get] is the dictionary's
    [get(key, ())]. *)

Definition get (m : gmap K (gset A)) (k : K) : gset A :=
  default ∅ (m !! k).

(** Modelled from the spec: adding an entry creates the key's set when the
    key is absent. *)

Definition add_data_entry (k : K) (a : A) (m : gmap K (gset A)) :=
  <[k := get m k ∪ {[a]}]> m.

(** Modelled from the spec: the same for a whole set of entries. *)

Definition add_data_set (k : K) (s : gset A) (m : gmap K (gset A)) :=
  <[k := get m k ∪ s]> m.

(** Modelled from the spec: removing an entry does nothing for an absent
    key; a set which becomes empty is dropped with its key (the tests
    require the register's buffers to be empty once every item has been
    removed). *)

Definition rm_data_entry (k : K) (a : A) (m : gmap K (gset A)) :=
  match m !! k with
  | None => m
  | Some s =>
      if decide (s ∖ {[a]} = ∅) then delete k m else <[k := s ∖ {[a]}]> m
  end.

(** No key is bound to the empty set. *)

Definition wf (m : gmap K (gset A)) : Prop :=
  ∀ k s, m !! k = Some s → s ≠ ∅.
End defs.
End KeyedStorage.

(** ** The register *)

Record AffectionRegister := {
  (* All known items *)
  __affectee : gset Item;
  (* {domain: set(affectee items)} *)
  __affectee_domain : gmap ModDomain.t (gset Item);
  (* {(domain, group ID): set(affectee items)} *)
  __affectee_domain_group : gmap (ModDomain.t * option Z) (gset Item);
  (* {(domain, skill type ID): set(affectee items)} *)
  __affectee_domain_skillrq : gmap (ModDomain.t * option Z) (gset Item);
  (* {skill type ID: set(affectee items)} *)
  __affectee_owner_skillrq : gmap (option Z) (gset Item);
  (* {carrier item: set(affectors)} *)
  __affector_item_other : gmap Item (gset Affector);
  (* {carrier item: set(affectors)} *)
  __affector_item_awaitable : gmap Item (gset Affector);
  (* {affectee item: set(affectors)} *)
  __affector_item_active : gmap Item (gset Affector);
  (* {domain: set(affectors)} *)
  __affector_domain : gmap ModDomain.t (gset Affector);
  (* {(domain, group ID): set(affectors)} *)
  __affector_domain_group : gmap (ModDomain.t * option Z) (gset Affector);
  (* {(domain, skill type ID): set(affectors)} *)
  __affector_domain_skillrq : gmap (ModDomain.t * option Z) (gset Affector);
  (* {skill type ID: set(affectors)} *)
  __affector_owner_skillrq : gmap (option Z) (gset Affector)
}.

(** [AffectionRegister.__init__]. *)

Definition init : AffectionRegister :=
  {| __affectee := ∅;
     __affectee_domain := ∅;
     __affectee_domain_group := ∅;
     __affectee_domain_skillrq := ∅;
     __affectee_owner_skillrq := ∅;
     __affector_item_other := ∅;
     __affector_item_awaitable := ∅;
     __affector_item_active := ∅;
     __affector_domain := ∅;
     __affector_domain_group := ∅;
     __affector_domain_skillrq := ∅;
     __affector_owner_skillrq := ∅ |}.

(** The [(key, affectee map)] pairs of [__get_affectee_storages] and the
    [(key, affector map)] pairs of [__get_affector_storages]: the map is
    named by the constructor. A key built from [tgt_filter_extra_arg] may
    be [None] in the source, hence [option Z]. *)

Inductive AffecteeStorage :=
| in_affectee_domain (d : ModDomain.t)
| in_affectee_domain_group (k : ModDomain.t * option Z)
| in_affectee_domain_skillrq (k : ModDomain.t * option Z)
| in_affectee_owner_skillrq (k : option Z).

Inductive AffectorStorage :=
| in_affector_item_other (k : Item)
| in_affector_item_awaitable (k : Item)
| in_affector_item_active (k : Item)
| in_affector_domain (d : ModDomain.t)
| in_affector_domain_group (k : ModDomain.t * option Z)
| in_affector_domain_skillrq (k : ModDomain.t * option Z)
| in_affector_owner_skillrq (k : option Z).

Definition with_affectee (f : gset Item → gset Item)
    (r : AffectionRegister) : AffectionRegister :=
  {| __affectee := f (__affectee r);
     __affectee_domain := __affectee_domain r;
     __affectee_domain_group := __affectee_domain_group r;
     __affectee_domain_skillrq := __affectee_domain_skillrq r;
     __affectee_owner_skillrq := __affectee_owner_skillrq r;
     __affector_item_other := __affector_item_other r;
     __affector_item_awaitable := __affector_item_awaitable r;
     __affector_item_active := __affector_item_active r;
     __affector_domain := __affector_domain r;
     __affector_domain_group := __affector_domain_group r;
     __affector_domain_skillrq := __affector_domain_skillrq r;
     __affector_owner_skillrq := __affector_owner_skillrq r |}.

Definition with_affector_item_awaitable
    (f : gmap Item (gset Affector) → gmap Item (gset Affector))
    (r : AffectionRegister) : AffectionRegister :=
  {| __affectee := __affectee r;
     __affectee_domain := __affectee_domain r;
     __affectee_domain_group := __affectee_domain_group r;
     __affectee_domain_skillrq := __affectee_domain_skillrq r;
     __affectee_owner_skillrq := __affectee_owner_skillrq r;
     __affector_item_other := __affector_item_other r;
     __affector_item_awaitable := f (__affector_item_awaitable r);
     __affector_item_active := __affector_item_active r;
     __affector_domain := __affector_domain r;
     __affector_domain_group := __affector_domain_group r;
     __affector_domain_skillrq := __affector_domain_skillrq r;
     __affector_owner_skillrq := __affector_owner_skillrq r |}.

Definition with_affector_item_active
    (f : gmap Item (gset Affector) → gmap Item (gset Affector))
    (r : AffectionRegister) : AffectionRegister :=
  {| __affectee := __affectee r;
     __affectee_domain := __affectee_domain r;
     __affectee_domain_group := __affectee_domain_group r;
     __affectee_domain_skillrq := __affectee_domain_skillrq r;
     __affectee_owner_skillrq := __affectee_owner_skillrq r;
     __affector_item_other := __affector_item_other r;
     __affector_item_awaitable := __affector_item_awaitable r;
     __affector_item_active := f (__affector_item_active r);
     __affector_domain := __affector_domain r;
     __affector_domain_group := __affector_domain_group r;
     __affector_domain_skillrq := __affector_domain_skillrq r;
     __affector_owner_skillrq := __affector_owner_skillrq r |}.

(** Apply a [KeyedStorage] update to the affectee map a storage names. *)

Definition on_affectee_storage
    (f : ∀ K `{Countable K}, K → gmap K (gset Item) → gmap K (gset Item))
    (s : AffecteeStorage) (r : AffectionRegister) : AffectionRegister :=
  {| __affectee := __affectee r;
     __affectee_domain :=
       match s with
       | in_affectee_domain k => f _ k (__affectee_domain r)
       | _ => __affectee_domain r
       end;
     __affectee_domain_group :=
       match s with
       | in_affectee_domain_group k => f _ k (__affectee_domain_group r)
       | _ => __affectee_domain_group r
       end;
     __affectee_domain_skillrq :=
       match s with
       | in_affectee_domain_skillrq k => f _ k (__affectee_domain_skillrq r)
       | _ => __affectee_domain_skillrq r
       end;
     __affectee_owner_skillrq :=
       match s with
       | in_affectee_owner_skillrq k => f _ k (__affectee_owner_skillrq r)
       | _ => __affectee_owner_skillrq r
       end;
     __affector_item_other := __affector_item_other r;
     __affector_item_awaitable := __affector_item_awaitable r;
     __affector_item_active := __affector_item_active r;
     __affector_domain := __affector_domain r;
     __affector_domain_group := __affector_domain_group r;
     __affector_domain_skillrq := __affector_domain_skillrq r;
     __affector_owner_skillrq := __affector_owner_skillrq r |}.

(** Apply a [KeyedStorage] update to the affector map a storage names. *)

Definition on_affector_storage
    (f : ∀ K `{Countable K},
           K → gmap K (gset Affector) → gmap K (gset Affector))
    (s : AffectorStorage) (r : AffectionRegister) : AffectionRegister :=
  {| __affectee := __affectee r;
     __affectee_domain := __affectee_domain r;
     __affectee_domain_group := __affectee_domain_group r;
     __affectee_domain_skillrq := __affectee_domain_skillrq r;
     __affectee_owner_skillrq := __affectee_owner_skillrq r;
     __affector_item_other :=
       match s with
       | in_affector_item_other k => f _ k (__affector_item_other r)
       | _ => __affector_item_other r
       end;
     __affector_item_awaitable :=
       match s with
       | in_affector_item_awaitable k => f _ k (__affector_item_awaitable r)
       | _ => __affector_item_awaitable r
       end;
     __affector_item_active :=
       match s with
       | in_affector_item_active k => f _ k (__affector_item_active r)
       | _ => __affector_item_active r
       end;
     __affector_domain :=
       match s with
       | in_affector_domain k => f _ k (__affector_domain r)
       | _ => __affector_domain r
       end;
     __affector_domain_group :=
       match s with
       | in_affector_domain_group k => f _ k (__affector_domain_group r)
       | _ => __affector_domain_group r
       end;
     __affector_domain_skillrq :=
       match s with
       | in_affector_domain_skillrq k => f _ k (__affector_domain_skillrq r)
       | _ => __affector_domain_skillrq r
       end;
     __affector_owner_skillrq :=
       match s with
       | in_affector_owner_skillrq k => f _ k (__affector_owner_skillrq r)
       | _ => __affector_owner_skillrq r
       end |}.

(** ** Results of fallible helpers *)

Inductive Result (A : Type) :=
| Return (a : A)
| Raise (e : AffectorError).

Arguments Return {A} a.
Arguments Raise {A} e.

#[global] Instance Result_bind : MBind Result :=
  λ A B f m, match m with Return a => f a | Raise e => Raise e end.

(** ** Methods of [AffectionRegister] *)

Section methods.

(** [EosTypeId.current_self], the sentinel skill type id. *)
Variable current_self : Z.

(** [self.__calc_svc]. *)
Variable __calc_svc : CalcSvc.

Implicit Types (r : AffectionRegister) (affector : Affector).

(** *** Shared helpers *)

Definition __get_registered_affectees r (items : gset Item) : gset Item :=
  __affectee r ∩ items.

Definition __contextize_tgt_filter_domain affector : Result ModDomain.t :=
  let carrier_item := carrier_item affector in
  let domain := tgt_domain (modifier affector) in
  match domain with
  | ModDomain.self =>
      if decide (_current_ship __calc_svc = Some carrier_item)
      then Return ModDomain.ship
      else if decide (_current_char __calc_svc = Some carrier_item)
      then Return ModDomain.character
      else Raise (UnexpectedDomainError domain)
  | ModDomain.character | ModDomain.ship => Return domain
  | _ => Raise (UnexpectedDomainError domain)
  end.

Definition __handle_affector_errors (error : AffectorError) affector
    : list LogRecord :=
  match error with
  | UnexpectedDomainError d =>
      [logger_warning
         (unsupported_target_domain (_type_id (carrier_item affector)) d)]
  | UnknownTgtFilterError f =>
      [logger_warning
         (invalid_target_filter (_type_id (carrier_item affector)) f)]
  end.

(** [skill_type_id] after the substitution of [current_self]. *)

Definition skill_type_id_of affector : option Z :=
  let skill_type_id := tgt_filter_extra_arg (modifier affector) in
  if decide (skill_type_id = Some current_self)
  then Some (_type_id (carrier_item affector))
  else skill_type_id.

(** *** Affectee getters *)

Definition __get_affectees_item_self r affector : gset Item :=
  __get_registered_affectees r {[carrier_item affector]}.

Definition __get_affectees_item_character r (_ : Affector) : gset Item :=
  match _current_char __calc_svc with
  | Some character => __get_registered_affectees r {[character]}
  | None => ∅
  end.

Definition __get_affectees_item_ship r (_ : Affector) : gset Item :=
  match _current_ship __calc_svc with
  | Some ship => __get_registered_affectees r {[ship]}
  | None => ∅
  end.

Definition __get_affectees_item_other r affector : gset Item :=
  __get_registered_affectees r (_others __calc_svc (carrier_item affector)).

Definition __get_affectees_item r affector : Result (gset Item) :=
  match tgt_domain (modifier affector) with
  | ModDomain.self => Return (__get_affectees_item_self r affector)
  | ModDomain.character => Return (__get_affectees_item_character r affector)
  | ModDomain.ship => Return (__get_affectees_item_ship r affector)
  | ModDomain.other => Return (__get_affectees_item_other r affector)
  | d => Raise (UnexpectedDomainError d)
  end.

Definition __get_affectees_domain r affector : Result (gset Item) :=
  domain ← __contextize_tgt_filter_domain affector;
  Return (KeyedStorage.get (__affectee_domain r) domain).

Definition __get_affectees_domain_group r affector : Result (gset Item) :=
  domain ← __contextize_tgt_filter_domain affector;
  let group_id := tgt_filter_extra_arg (modifier affector) in
  Return (KeyedStorage.get (__affectee_domain_group r) (domain, group_id)).

Definition __get_affectees_domain_skillrq r affector : Result (gset Item) :=
  domain ← __contextize_tgt_filter_domain affector;
  let skill_type_id := skill_type_id_of affector in
  Return
    (KeyedStorage.get (__affectee_domain_skillrq r) (domain, skill_type_id)).

Definition __get_affectees_owner_skillrq r affector : Result (gset Item) :=
  let skill_type_id := skill_type_id_of affector in
  Return (KeyedStorage.get (__affectee_owner_skillrq r) skill_type_id).

Definition get_affectees r affector : gset Item * list LogRecord :=
  let mod_tgt_filter := tgt_filter (modifier affector) in
  let result :=
    match mod_tgt_filter with
    | ModTgtFilter.item => __get_affectees_item r affector
    | ModTgtFilter.domain => __get_affectees_domain r affector
    | ModTgtFilter.domain_group => __get_affectees_domain_group r affector
    | ModTgtFilter.domain_skillrq => __get_affectees_domain_skillrq r affector
    | ModTgtFilter.owner_skillrq => __get_affectees_owner_skillrq r affector
    | _ => Raise (UnknownTgtFilterError mod_tgt_filter)
    end in
  match result with
  | Return items => (items, [])
  | Raise e => (∅, __handle_affector_errors e affector)
  end.

(** *** Affectee processing *)

Definition __get_affectee_storages (affectee_item : Item)
    : list AffecteeStorage :=
  match _modifier_domain affectee_item with
  | Some domain =>
      [in_affectee_domain domain]
      ++ match group_id affectee_item with
         | Some group_id => [in_affectee_domain_group (domain, Some group_id)]
         | None => []
         end
      ++ map (λ skill_type_id,
                in_affectee_domain_skillrq (domain, Some skill_type_id))
             (required_skills affectee_item)
  | None => []
  end
  ++ (if _owner_modifiable affectee_item
      then map (λ skill_type_id, in_affectee_owner_skillrq (Some skill_type_id))
               (required_skills affectee_item)
      else []).

(** The test [__activate_direct_affectors] applies to an awaitable affector
    found under the key [carrier_item]. *)

Definition awaits (affectee_item carrier_item : Item) affector : bool :=
  match tgt_domain (modifier affector) with
  | ModDomain.ship =>
      bool_decide (_current_ship __calc_svc = Some affectee_item)
  | ModDomain.character =>
      bool_decide (_current_char __calc_svc = Some affectee_item)
  | ModDomain.self => bool_decide (affectee_item = carrier_item)
  | _ => false
  end.

(** The set a double loop over [storage.items()] collects: every affector
    stored under some key for which [keep key affector] holds. *)

Definition collect (keep : Item → Affector → bool)
    (storage : gmap Item (gset Affector)) : gset Affector :=
  ⋃ ((λ '(key, affectors), filter (λ a, keep key a = true) affectors)
       <$> map_to_list storage).

Definition __activate_direct_affectors r (affectee_item : Item)
    : AffectionRegister :=
  let affectors_awaitable :=
    collect (awaits affectee_item) (__affector_item_awaitable r) in
  (* Move awaitable affectors from awaitable storage to active storage *)
  let r :=
    if decide (affectors_awaitable = ∅) then r
    else
      with_affector_item_active
        (KeyedStorage.add_data_set affectee_item affectors_awaitable)
        (with_affector_item_awaitable
           (λ storage,
              set_fold
                (λ affector,
                   KeyedStorage.rm_data_entry (carrier_item affector) affector)
                storage affectors_awaitable)
           r) in
  (* Other *)
  let affectors_other :=
    collect
      (λ carrier_item _,
         bool_decide (affectee_item ∈ _others __calc_svc carrier_item))
      (__affector_item_other r) in
  if decide (affectors_other = ∅) then r
  else
    with_affector_item_active
      (KeyedStorage.add_data_set affectee_item affectors_other) r.

Definition __deactivate_direct_affectors r (affectee_item : Item)
    : AffectionRegister :=
  match __affector_item_active r !! affectee_item with
  | None => r
  | Some affectors =>
      let affectors_awaitable :=
        filter
          (λ affector,
             tgt_domain (modifier affector)
               ∈ [ModDomain.ship; ModDomain.character; ModDomain.self])
          affectors in
      (* Remove all affectors influencing this item directly *)
      let r := with_affector_item_active (delete affectee_item) r in
      with_affector_item_awaitable
        (λ storage,
           set_fold
             (λ affector,
                KeyedStorage.add_data_entry (carrier_item affector) affector)
             storage affectors_awaitable)
        r
  end.

Definition register_affectee r (affectee_item : Item) : AffectionRegister :=
  let r := with_affectee (λ s, s ∪ {[affectee_item]}) r in
  let r :=
    foldl
      (λ r storage,
         on_affectee_storage
           (λ K _ _ key, KeyedStorage.add_data_entry key affectee_item)
           storage r)
      r (__get_affectee_storages affectee_item) in
  __activate_direct_affectors r affectee_item.

Definition unregister_affectee r (affectee_item : Item) : AffectionRegister :=
  let r := with_affectee (λ s, s ∖ {[affectee_item]}) r in
  let r :=
    foldl
      (λ r storage,
         on_affectee_storage
           (λ K _ _ key, KeyedStorage.rm_data_entry key affectee_item)
           storage r)
      r (__get_affectee_storages affectee_item) in
  __deactivate_direct_affectors r affectee_item.

(** *** Affector processing *)

Definition get_affectors r (affectee_item : Item) : gset Affector :=
  if decide (affectee_item ∈ __affectee r) then
    (* Item *)
    KeyedStorage.get (__affector_item_active r) affectee_item
    ∪ match _modifier_domain affectee_item with
      | Some domain =>
          (* Domain *)
          KeyedStorage.get (__affector_domain r) domain
          (* Domain and group *)
          ∪ KeyedStorage.get (__affector_domain_group r)
              (domain, group_id affectee_item)
          (* Domain and skill requirement *)
          ∪ ⋃ (map (λ skill_type_id,
                      KeyedStorage.get (__affector_domain_skillrq r)
                        (domain, Some skill_type_id))
                   (required_skills affectee_item))
      | None => ∅
      end
    ∪ (if _owner_modifiable affectee_item
       then
         (* Owner-modifiable and skill requirement *)
         ⋃ (map (λ skill_type_id,
                   KeyedStorage.get (__affector_owner_skillrq r)
                     (Some skill_type_id))
                (required_skills affectee_item))
       else ∅)
  else ∅.

Definition __get_affector_storages_item_self r affector
    : list AffectorStorage :=
  if decide (carrier_item affector ∈ __affectee r)
  then [in_affector_item_active (carrier_item affector)]
  else [in_affector_item_awaitable (carrier_item affector)].

Definition __get_affector_storages_item_character r affector
    : list AffectorStorage :=
  match _current_char __calc_svc with
  | Some character =>
      if decide (character ∈ __affectee r)
      then [in_affector_item_active character]
      else [in_affector_item_awaitable (carrier_item affector)]
  | None => [in_affector_item_awaitable (carrier_item affector)]
  end.

Definition __get_affector_storages_item_ship r affector
    : list AffectorStorage :=
  match _current_ship __calc_svc with
  | Some ship =>
      if decide (ship ∈ __affectee r)
      then [in_affector_item_active ship]
      else [in_affector_item_awaitable (carrier_item affector)]
  | None => [in_affector_item_awaitable (carrier_item affector)]
  end.

Definition __get_affector_storages_item_other r affector
    : list AffectorStorage :=
  in_affector_item_other (carrier_item affector)
  :: map in_affector_item_active
       (elements
          (__get_registered_affectees r
             (_others __calc_svc (carrier_item affector)))).

Definition __get_affector_storages_item r affector
    : Result (list AffectorStorage) :=
  let tgt_domain := tgt_domain (modifier affector) in
  match tgt_domain with
  | ModDomain.self => Return (__get_affector_storages_item_self r affector)
  | ModDomain.character =>
      Return (__get_affector_storages_item_character r affector)
  | ModDomain.ship => Return (__get_affector_storages_item_ship r affector)
  | ModDomain.other => Return (__get_affector_storages_item_other r affector)
  | _ => Raise (UnexpectedDomainError tgt_domain)
  end.

Definition __get_affector_storages_domain affector
    : Result (list AffectorStorage) :=
  domain ← __contextize_tgt_filter_domain affector;
  Return [in_affector_domain domain].

Definition __get_affector_storages_domain_group affector
    : Result (list AffectorStorage) :=
  domain ← __contextize_tgt_filter_domain affector;
  let group_id := tgt_filter_extra_arg (modifier affector) in
  Return [in_affector_domain_group (domain, group_id)].

Definition __get_affector_storages_domain_skillrq affector
    : Result (list AffectorStorage) :=
  domain ← __contextize_tgt_filter_domain affector;
  let skill_type_id := skill_type_id_of affector in
  Return [in_affector_domain_skillrq (domain, skill_type_id)].

Definition __get_affector_storages_owner_skillrq affector
    : Result (list AffectorStorage) :=
  let skill_type_id := skill_type_id_of affector in
  Return [in_affector_owner_skillrq skill_type_id].

Definition __get_affector_storages r affector
    : Result (list AffectorStorage) :=
  let tgt_filter := tgt_filter (modifier affector) in
  match tgt_filter with
  | ModTgtFilter.item => __get_affector_storages_item r affector
  | ModTgtFilter.domain => __get_affector_storages_domain affector
  | ModTgtFilter.domain_group => __get_affector_storages_domain_group affector
  | ModTgtFilter.domain_skillrq =>
      __get_affector_storages_domain_skillrq affector
  | ModTgtFilter.owner_skillrq =>
      __get_affector_storages_owner_skillrq affector
  | _ => Raise (UnknownTgtFilterError tgt_filter)
  end.

Definition register_affector r affector
    : AffectionRegister * list LogRecord :=
  match __get_affector_storages r affector with
  | Raise e => (r, __handle_affector_errors e affector)
  | Return affector_storages =>
      (foldl
         (λ r storage,
            on_affector_storage
              (λ K _ _ key, KeyedStorage.add_data_entry key affector)
              storage r)
         r affector_storages,
       [])
  end.

Definition unregister_affector r affector
    : AffectionRegister * list LogRecord :=
  match __get_affector_storages r affector with
  | Raise e => (r, __handle_affector_errors e affector)
  | Return affector_storages =>
      (foldl
         (λ r storage,
            on_affector_storage
              (λ K _ _ key, KeyedStorage.rm_data_entry key affector)
              storage r)
         r affector_storages,
       [])
  end.

End methods.

#[global] Instance AffectionRegister_eq_dec : EqDecision AffectionRegister.
Proof. solve_decision. Defined.

(** ** Reading the indices *)

(** The item sits in the affectee map the storage names, under its key. *)

Definition affectee_in (r : AffectionRegister) (s : AffecteeStorage)
    (x : Item) : Prop :=
  match s with
  | in_affectee_domain k => x ∈ KeyedStorage.get (__affectee_domain r) k
  | in_affectee_domain_group k =>
      x ∈ KeyedStorage.get (__affectee_domain_group r) k
  | in_affectee_domain_skillrq k =>
      x ∈ KeyedStorage.get (__affectee_domain_skillrq r) k
  | in_affectee_owner_skillrq k =>
      x ∈ KeyedStorage.get (__affectee_owner_skillrq r) k
  end.

(** The affector sits in the affector map the storage names, under its
    key. *)

Definition affector_in (r : AffectionRegister) (s : AffectorStorage)
    (a : Affector) : Prop :=
  match s with
  | in_affector_item_other k =>
      a ∈ KeyedStorage.get (__affector_item_other r) k
  | in_affector_item_awaitable k =>
      a ∈ KeyedStorage.get (__affector_item_awaitable r) k
  | in_affector_item_active k =>
      a ∈ KeyedStorage.get (__affector_item_active r) k
  | in_affector_domain k => a ∈ KeyedStorage.get (__affector_domain r) k
  | in_affector_domain_group k =>
      a ∈ KeyedStorage.get (__affector_domain_group r) k
  | in_affector_domain_skillrq k =>
      a ∈ KeyedStorage.get (__affector_domain_skillrq r) k
  | in_affector_owner_skillrq k =>
      a ∈ KeyedStorage.get (__affector_owner_skillrq r) k
  end.

(** The affector occurs somewhere in the register's affector indices. *)

Definition indexed (r : AffectionRegister) (a : Affector) : Prop :=
  ∃ s, affector_in r s a.

(** ** Histories of calls *)

Inductive Call :=
| call_register_affectee (affectee_item : Item)
| call_unregister_affectee (affectee_item : Item)
| call_register_affector (affector : Affector)
| call_unregister_affector (affector : Affector).

Section histories.
Variable current_self : Z.

Definition call (svc : CalcSvc) (r : AffectionRegister) (c : Call)
    : AffectionRegister :=
  match c with
  | call_register_affectee x => register_affectee svc r x
  | call_unregister_affectee x => unregister_affectee r x
  | call_register_affector a => (register_affector current_self svc r a).1
  | call_unregister_affector a => (unregister_affector current_self svc r a).1
  end.

(** The register after a history of calls on a fresh register; every call
    is made under the ship, character and [_others] of its moment. *)

Definition run (history : list (CalcSvc * Call)) : AffectionRegister :=
  foldl (λ r '(svc, c), call svc r c) init history.

(** A history during which the fit's ship, character and [_others] stay
    as they are. *)

Definition steady (svc : CalcSvc) (calls : list Call)
    : list (CalcSvc * Call) :=
  pair svc <$> calls.

(** The affectors registered and not since unregistered. *)

Definition registered (calls : list Call) : gset Affector :=
  foldl
    (λ R c,
       match c with
       | call_register_affector a => R ∪ {[a]}
       | call_unregister_affector a => R ∖ {[a]}
       | _ => R
       end)
    ∅ calls.

(** A modifier the register rejects: a filter which is none of the five,
    or a target domain its filter does not support.  The owner-skill
    filter does not read the domain. *)

Definition malformed (svc : CalcSvc) (a : Affector) : bool :=
  match tgt_filter (modifier a) with
  | ModTgtFilter.unknown _ => true
  | ModTgtFilter.item =>
      match tgt_domain (modifier a) with
      | ModDomain.unknown _ => true
      | _ => false
      end
  | ModTgtFilter.domain | ModTgtFilter.domain_group
  | ModTgtFilter.domain_skillrq =>
      match tgt_domain (modifier a) with
      | ModDomain.self =>
          bool_decide (_current_ship svc ≠ Some (carrier_item a)
                       ∧ _current_char svc ≠ Some (carrier_item a))
      | ModDomain.character | ModDomain.ship => false
      | _ => true
      end
  | ModTgtFilter.owner_skillrq => false
  end.

End histories.

(** ** Invariants of the register *)

Record wf_storages (r : AffectionRegister) : Prop := {
  wf_affectee_domain : KeyedStorage.wf (__affectee_domain r);
  wf_affectee_domain_group : KeyedStorage.wf (__affectee_domain_group r);
  wf_affectee_domain_skillrq : KeyedStorage.wf (__affectee_domain_skillrq r);
  wf_affectee_owner_skillrq : KeyedStorage.wf (__affectee_owner_skillrq r);
  wf_affector_item_other : KeyedStorage.wf (__affector_item_other r);
  wf_affector_item_awaitable : KeyedStorage.wf (__affector_item_awaitable r);
  wf_affector_item_active : KeyedStorage.wf (__affector_item_active r);
  wf_affector_domain : KeyedStorage.wf (__affector_domain r);
  wf_affector_domain_group : KeyedStorage.wf (__affector_domain_group r);
  wf_affector_domain_skillrq : KeyedStorage.wf (__affector_domain_skillrq r);
  wf_affector_owner_skillrq : KeyedStorage.wf (__affector_owner_skillrq r)
}.

Record invariant (r : AffectionRegister) : Prop := {
  (* no index binds a key to the empty set *)
  inv_wf : wf_storages r;
  (* the affectee maps hold registered items, each where it belongs *)
  inv_affectee : ∀ s x,
    affectee_in r s x → x ∈ __affectee r ∧ s ∈ __get_affectee_storages x;
  (* active direct affectors are keyed on registered items *)
  inv_active : ∀ k,
    is_Some (__affector_item_active r !! k) → k ∈ __affectee r;
  (* awaitable affectors are keyed on their carrier and target one item *)
  inv_awaitable : ∀ k a,
    a ∈ KeyedStorage.get (__affector_item_awaitable r) k →
    carrier_item a = k
    ∧ tgt_domain (modifier a)
        ∈ [ModDomain.ship; ModDomain.character; ModDomain.self];
  (* the permanent record of 'other' affectors holds nothing else *)
  inv_other : ∀ k a,
    a ∈ KeyedStorage.get (__affector_item_other r) k →
    tgt_domain (modifier a) = ModDomain.other
}.

(** Every registered affector is found wherever the register would now
    store it. *)

Definition located (current_self : Z) (svc : CalcSvc) (R : gset Affector)
    (r : AffectionRegister) : Prop :=
  ∀ a storages s,
    a ∈ R →
    __get_affector_storages current_self svc r a = Return storages →
    s ∈ storages →
    affector_in r s a.

(** The affectors [__activate_direct_affectors] promotes to the active
    index when an item is registered, and the 'other' affectors it
    replicates there. *)

Definition promoted (svc : CalcSvc) (r : AffectionRegister) (x : Item)
    : gset Affector :=
  collect (awaits svc x) (__affector_item_awaitable r).

Definition replicated (svc : CalcSvc) (r : AffectionRegister) (x : Item)
    : gset Affector :=
  collect (λ carrier_item _, bool_decide (x ∈ _others svc carrier_item))
    (__affector_item_other r).

(** The affectors [__deactivate_direct_affectors] moves back to the
    awaitable index. *)

Definition demotable (a : Affector) : Prop :=
  tgt_domain (modifier a)
    ∈ [ModDomain.ship; ModDomain.character; ModDomain.self].

(** The one item a direct affector with target domain [self],
    [character] or [ship] is aimed at. *)

Definition direct_target (svc : CalcSvc) (a : Affector) : option Item :=
  match tgt_domain (modifier a) with
  | ModDomain.self => Some (carrier_item a)
  | ModDomain.character => _current_char svc
  | ModDomain.ship => _current_ship svc
  | _ => None
  end.

(** A storage of the three indices for direct affectors. *)

Definition direct_storage (s : AffectorStorage) : Prop :=
  match s with
  | in_affector_item_other _ | in_affector_item_awaitable _
  | in_affector_item_active _ => True
  | _ => False
  end.

(** ** Statements about the contextized domain *)

(** Where a broadcast affector goes once its domain has been resolved to
    [d]; the owner-skill index has no domain in its key. *)

Definition broadcast_storage (current_self : Z) (a : Affector)
    (d : ModDomain.t) : AffectorStorage :=
  match tgt_filter (modifier a) with
  | ModTgtFilter.domain => in_affector_domain d
  | ModTgtFilter.domain_group =>
      in_affector_domain_group (d, tgt_filter_extra_arg (modifier a))
  | ModTgtFilter.domain_skillrq =>
      in_affector_domain_skillrq (d, skill_type_id_of current_self a)
  | _ => in_affector_owner_skillrq (skill_type_id_of current_self a)
  end.

(** The treatment of a modifier with [tgt_domain = self]: stored under
    [ship] when the carrier is the current ship, under [character] when
    it is the current character (the ship is tested first), and rejected
    with the unsupported-domain warning otherwise. *)

Definition self_domain_contextized (current_self : Z) (svc : CalcSvc)
    (r : AffectionRegister) (a : Affector) : Prop :=
  (_current_ship svc = Some (carrier_item a) →
   __get_affector_storages current_self svc r a
   = Return [broadcast_storage current_self a ModDomain.ship])
  ∧ (_current_ship svc ≠ Some (carrier_item a) →
     _current_char svc = Some (carrier_item a) →
     __get_affector_storages current_self svc r a
     = Return [broadcast_storage current_self a ModDomain.character])
  ∧ (_current_ship svc ≠ Some (carrier_item a) →
     _current_char svc ≠ Some (carrier_item a) →
     register_affector current_self svc r a
     = (r, [logger_warning
              (unsupported_target_domain (_type_id (carrier_item a))
                 ModDomain.self)])).

(** ** The boundary of the RAH simulator *)

Module RahSim.
Import Stdlib.QArith.QArith.

(** Resonances in the order em, thermal, kinetic, explosive. *)

Record Resonances := {
  em : Q;
  thermal : Q;
  kinetic : Q;
  explosive : Q
}.

Record Rah := {
  unsimulated : Resonances;
  shift_amount : Q;
  cycle_time : Q
}.

Record SimLogRecord := { sim_levelno : LogLevel; sim_msg : string }.

Definition res_eq (a b : Resonances) : Prop :=
  (em a == em b ∧ thermal a == thermal b
   ∧ kinetic a == kinetic b ∧ explosive a == explosive b)%Q.

Definition res_mul (a b : Resonances) : Resonances :=
  {| em := em a * em b;
     thermal := thermal a * thermal b;
     kinetic := kinetic a * kinetic b;
     explosive := explosive a * explosive b |}%Q.

Section boundary.

(** Whatever an exception carries. *)
Variable Exception : Type.

(** The tick engine proper (ticks, loop detection, averaging), from the
    ship's resonances and the module to the module's averaged resonances;
    it may raise. *)
Variable simulate : Resonances → Rah → Exception + Resonances.

(** Modelled from the spec: the simulator module is not among the sources,
    only its tests are.  "If any exception occurs during simulation, log a
    warning 'unexpected exception, setting unsimulated resonances' and
    leave the RAH's original (unsimulated) resonance values unchanged";
    otherwise the computed average is written on the module. *)

Definition rah_resonances (ship : Resonances) (rah : Rah)
    : Resonances * list SimLogRecord :=
  match simulate ship rah with
  | inr averaged => (averaged, [])
  | inl _ =>
      (unsimulated rah,
       [{| sim_levelno := WARNING;
           sim_msg := "unexpected exception, setting unsimulated resonances"
         |}])
  end.

(** Modelled from the spec: the calculator is not among the sources.  The
    module's resonances reach the ship as multipliers, and a single
    contribution carries no stacking penalty (the factor of index 0
    is 1). *)

Definition ship_resonances (ship : Resonances) (rah : Rah) : Resonances :=
  res_mul ship (rah_resonances ship rah).1.

End boundary.

(** The data of the scenario with [cycle_time = 0]. *)

Definition scenario_ship : Resonances :=
  {| em := 0.5; thermal := 0.65; kinetic := 0.75; explosive := 0.9 |}%Q.

Definition scenario_rah : Rah :=
  {| unsimulated :=
       {| em := 0.85; thermal := 0.85; kinetic := 0.85; explosive := 0.85 |};
     shift_amount := 6;
     cycle_time := 0 |}%Q.

(** A tick engine which divides by the cycle time, and nothing more: it
    stands for any engine which fails on a cycle time of zero. *)

Definition dividing_engine (ship : Resonances) (rah : Rah)
    : unit + Resonances :=
  if Qeq_bool (cycle_time rah) 0 then inl tt else inr (unsimulated rah).

End RahSim.

(** ** The category table of the effect builder *)

Module EffectCategory.
Inductive t :=
  passive | active | target | area | online | overload | dungeon | system.
End EffectCategory.

Module State.
Inductive t := offline | online | active | overload.
End State.

Module Context.
Inductive t := local | projected.
End Context.

Module EffectBuildStatus.
Inductive t := okFull | okPartial | error.
End EffectBuildStatus.

Module InfoBuilder.
Section builder.

(** The expression trees of an effect, and what one modifier takes from
    them (target, operator, attributes). *)
Variables Tree Payload : Type.

(** The walk over the trees, with the status it reaches. *)
Variable parse : Tree → list Payload * EffectBuildStatus.t.

Record Effect := {
  category : EffectCategory.t;
  expressions : Tree
}.

Record Info := {
  state : State.t;
  context : Context.t;
  payload : Payload
}.

(** Modelled from the spec: the builder is not among the sources, only
    its tests are.  This is the table "Category -> minimum-state / context
    mapping"; area and dungeon have no row. *)

Definition activation (c : EffectCategory.t)
    : option (State.t * Context.t) :=
  match c with
  | EffectCategory.passive => Some (State.offline, Context.local)
  | EffectCategory.active => Some (State.active, Context.local)
  | EffectCategory.target => Some (State.active, Context.projected)
  | EffectCategory.area => None
  | EffectCategory.online => Some (State.online, Context.local)
  | EffectCategory.overload => Some (State.overload, Context.local)
  | EffectCategory.dungeon => None
  | EffectCategory.system => Some (State.offline, Context.local)
  end.

(** Modelled from the spec: "effect build returns status error and no
    modifiers are emitted" for a rejected category; otherwise every
    modifier found in the trees is emitted with the state and context of
    the effect's category. *)

Definition build (effect : Effect) : list Info * EffectBuildStatus.t :=
  match activation (category effect) with
  | None => ([], EffectBuildStatus.error)
  | Some (st, ctx) =>
      let '(payloads, status) := parse (expressions effect) in
      (map (λ p, {| state := st; context := ctx; payload := p |}) payloads,
       status)
  end.

End builder.
End InfoBuilder.

(** ** A small fit *)

Module Fixture.

Definition ship : Item :=
  {| item_id := 1; _type_id := 100; group_id := Some 25;
     required_skills := []; _modifier_domain := None;
     _owner_modifiable := false |}.

Definition character : Item :=
  {| item_id := 2; _type_id := 200; group_id := Some 1;
     required_skills := []; _modifier_domain := None;
     _owner_modifiable := false |}.

Definition module : Item :=
  {| item_id := 3; _type_id := 300; group_id := Some 7;
     required_skills := [3300]; _modifier_domain := Some ModDomain.ship;
     _owner_modifiable := false |}.

Definition charge : Item :=
  {| item_id := 4; _type_id := 400; group_id := Some 8;
     required_skills := [3300]; _modifier_domain := None;
     _owner_modifiable := true |}.

Definition svc : CalcSvc :=
  {| _current_ship := Some ship;
     _current_char := Some character;
     _others := λ x,
       if decide (x = module) then {[charge]}
       else if decide (x = charge) then {[module]}
       else ∅ |}.

Definition current_self : Z := -1.

Definition affector_of (carrier : Item) (id : positive)
    (f : ModTgtFilter.t) (d : ModDomain.t) (arg : option Z) : Affector :=
  {| carrier_item := carrier;
     modifier := {| modifier_id := id; tgt_filter := f; tgt_domain := d;
                    tgt_filter_extra_arg := arg |} |}.

Definition to_ship := affector_of module 1 ModTgtFilter.item ModDomain.ship None.
Definition to_self := affector_of module 2 ModTgtFilter.item ModDomain.self None.
Definition to_other :=
  affector_of module 3 ModTgtFilter.item ModDomain.other None.
Definition to_domain :=
  affector_of ship 4 ModTgtFilter.domain ModDomain.self None.
Definition to_owner_skill :=
  affector_of module 5 ModTgtFilter.owner_skillrq ModDomain.self (Some 3300).
Definition bad_domain :=
  affector_of module 6 ModTgtFilter.item (ModDomain.unknown 1972) None.
Definition group_other :=
  affector_of module 7 ModTgtFilter.domain_group ModDomain.other (Some 7).
Definition group_self :=
  affector_of module 8 ModTgtFilter.domain_group ModDomain.self (Some 7).
Definition from_charge :=
  affector_of charge 9 ModTgtFilter.item ModDomain.other None.

(** The module is fitted and its charge loaded, the ship is not
    registered yet: [to_self] and [from_charge] are active on the module,
    [to_other] on the charge, and [to_ship] waits. *)

Definition loaded_calls : list Call :=
  [call_register_affectee module;
   call_register_affectee charge;
   call_register_affector to_other;
   call_register_affector from_charge;
   call_register_affector to_ship;
   call_register_affector to_self].

Definition loaded : AffectionRegister :=
  run current_self (steady svc loaded_calls).

(** An expression walk for the effect builder: the tree is the list of
    the modifiers it describes. *)

Definition parse_all (tree : list nat) : list nat * EffectBuildStatus.t :=
  (tree, EffectBuildStatus.okFull).

(** A history which registers the ship affector before the ship. *)

Definition ship_last : list Call :=
  [call_register_affector to_ship;
   call_register_affector to_domain;
   call_register_affectee module;
   call_register_affectee ship].

End Fixture.

(** ** Where an affector belongs *)

(** The storages of an affector, read off its modifier and the set [A] of
    registered items: what [__get_affector_storages] returns as [l] holds
    [s] exactly when [placed A a l s]. *)

Definition placed (svc : CalcSvc) (A : gset Item) (a : Affector)
    (l : list AffectorStorage) (s : AffectorStorage) : Prop :=
  match s with
  | in_affector_item_awaitable k =>
      tgt_filter (modifier a) = ModTgtFilter.item
      ∧ demotable a
      ∧ k = carrier_item a
      ∧ ∀ t, direct_target svc a = Some t → t ∉ A
  | in_affector_item_active k =>
      tgt_filter (modifier a) = ModTgtFilter.item
      ∧ k ∈ A
      ∧ ((demotable a ∧ direct_target svc a = Some k)
         ∨ (tgt_domain (modifier a) = ModDomain.other
            ∧ k ∈ _others svc (carrier_item a)))
  | in_affector_item_other k =>
      tgt_filter (modifier a) = ModTgtFilter.item
      ∧ tgt_domain (modifier a) = ModDomain.other
      ∧ k = carrier_item a
  | _ => tgt_filter (modifier a) ≠ ModTgtFilter.item ∧ s ∈ l
  end.

(** The affector indices hold nothing but registered affectors, each only
    where the register would now store it. *)

Definition exact (current_self : Z) (svc : CalcSvc) (R : gset Affector)
    (r : AffectionRegister) : Prop :=
  ∀ s a,
    affector_in r s a →
    a ∈ R
    ∧ ∃ storages,
        __get_affector_storages current_self svc r a = Return storages
        ∧ s ∈ storages.

(** Every registered item is in each affectee map it belongs to. *)

Definition affectee_complete (r : AffectionRegister) : Prop :=
  ∀ s x,
    x ∈ __affectee r → s ∈ __get_affectee_storages x → affectee_in r s x.

(** ** More histories of the small fit *)

Module Histories.
Import Fixture.

(** The calls of [ship_last], the ship first. *)

Definition ship_first : list Call :=
  [call_register_affectee ship;
   call_register_affectee module;
   call_register_affector to_domain;
   call_register_affector to_ship].

(** The loaded fit taken apart again. *)

Definition taken_apart : list Call :=
  loaded_calls
  ++ [call_unregister_affectee charge;
      call_unregister_affector to_self;
      call_unregister_affector to_ship;
      call_unregister_affectee module;
      call_unregister_affector from_charge;
      call_unregister_affector to_other].

(** An item whose type has no group, and a group modifier without group
    argument. *)

Definition groupless : Item :=
  {| item_id := 5; _type_id := 500; group_id := None;
     required_skills := []; _modifier_domain := Some ModDomain.ship;
     _owner_modifiable := false |}.

Definition no_group :=
  affector_of ship 10 ModTgtFilter.domain_group ModDomain.ship None.

Definition groupless_calls : list Call :=
  [call_register_affectee groupless; call_register_affector no_group].

End Histories.

(** ** A fit which changes *)

#[global] Instance AffectorStorage_eq_dec : EqDecision AffectorStorage.
Proof. solve_decision. Defined.

#[global] Instance AffectorError_eq_dec : EqDecision AffectorError.
Proof. solve_decision. Defined.

#[global] Instance Result_eq_dec {A} `{EqDecision A} : EqDecision (Result A).
Proof. solve_decision. Defined.

Section changing_fit.
Variable current_self : Z.

(** Under the new ship, character and [_others] ([svc']) the register
    computes for the affector the storages it computed under the old ones
    ([svc]), or raises. *)

Definition keeps_storages (svc svc' : CalcSvc) (r : AffectionRegister)
    (a : Affector) : Prop :=
  match __get_affector_storages current_self svc' r a with
  | Return storages =>
      __get_affector_storages current_self svc r a = Return storages
  | Raise _ => True
  end.

#[global] Instance keeps_storages_dec svc svc' r a :
  Decision (keeps_storages svc svc' r a).
Proof. unfold keeps_storages. destruct (__get_affector_storages _ svc' r a); apply _. Defined.

(** A change of ship, character or [_others] which no registered affector
    notices: the register is still in step with the fit. *)

Definition in_step (svc svc' : CalcSvc) (R : gset Affector)
    (r : AffectionRegister) : Prop :=
  set_Forall (keeps_storages svc svc' r) R.

#[global] Instance in_step_dec svc svc' R r : Decision (in_step svc svc' R r).
Proof. unfold in_step. apply _. Defined.

(** A history, continued from the register [r] with registered affectors
    [R] last used under [svc0], in which every change of ship, character
    or [_others] leaves the register in step, up to the present [svc]. *)

Fixpoint kept_in_step_from (svc0 : CalcSvc) (R : gset Affector)
    (r : AffectionRegister) (history : list (CalcSvc * Call))
    (svc : CalcSvc) : Prop :=
  match history with
  | [] => in_step svc0 svc R r
  | (svc1, c) :: history =>
      in_step svc0 svc1 R r
      ∧ kept_in_step_from svc1
          match c with
          | call_register_affector a => R ∪ {[a]}
          | call_unregister_affector a => R ∖ {[a]}
          | _ => R
          end
          (call current_self svc1 r c) history svc
  end.

Definition kept_in_step (history : list (CalcSvc * Call)) (svc : CalcSvc)
    : Prop :=
  kept_in_step_from svc ∅ init history svc.

End changing_fit.

(** ** The small fit with a second ship *)

Module Swaps.
Import Fixture.

Definition ship2 : Item :=
  {| item_id := 6; _type_id := 101; group_id := Some 25;
     required_skills := []; _modifier_domain := None;
     _owner_modifiable := false |}.

(** The fit once [ship2] has become its ship. *)

Definition svc_swapped : CalcSvc :=
  {| _current_ship := Some ship2;
     _current_char := _current_char svc;
     _others := _others svc |}.

(** The ship is replaced while it is still registered. *)

Definition swapped_in_place : list (CalcSvc * Call) :=
  [(svc, call_register_affectee ship);
   (svc, call_register_affector to_ship);
   (svc_swapped, call_register_affectee ship2)].

(** The ship is unregistered before it is replaced. *)

Definition swapped_in_order : list (CalcSvc * Call) :=
  [(svc, call_register_affectee ship);
   (svc, call_register_affector to_ship);
   (svc, call_unregister_affectee ship);
   (svc_swapped, call_register_affectee ship2)].

(** An owner-skill modifier whose target domain is no domain at all. *)

Definition owner_bad_domain :=
  affector_of module 11 ModTgtFilter.owner_skillrq (ModDomain.unknown 1972)
    (Some 3300).

End Swaps.

(** * Properties *)

(** ** KeyedStorage *)

Module KeyedStorageFacts.
Import KeyedStorage.
Section facts.
Context {K A : Type} `{Countable K, Countable A}.
Implicit Types (m : gmap K (gset A)) (k : K) (a : A) (s : gset A).

Lemma get_empty k : get (∅ : gmap K (gset A)) k = ∅.
Proof. unfold get. by rewrite lookup_empty. Qed.

Lemma get_add_data_set k s m k' :
  get (add_data_set k s m) k' = if decide (k = k') then get m k ∪ s else get m k'.
Proof.
  unfold add_data_set. unfold get at 1.
  rewrite lookup_insert. by case_decide.
Qed.

Lemma get_add_data_entry k a m k' :
  get (add_data_entry k a m) k'
  = if decide (k = k') then get m k ∪ {[a]} else get m k'.
Proof. apply (get_add_data_set k {[a]}). Qed.

Lemma get_delete k m k' :
  get (delete k m) k' = if decide (k = k') then ∅ else get m k'.
Proof. unfold get. rewrite lookup_delete. by case_decide. Qed.

Lemma get_rm_data_entry k a m k' :
  get (rm_data_entry k a m) k'
  = if decide (k = k') then get m k ∖ {[a]} else get m k'.
Proof.
  unfold rm_data_entry.
  destruct (m !! k) as [s|] eqn:Hk.
  - case_decide as He.
    + rewrite get_delete. case_decide; [|done].
      unfold get. rewrite Hk. simpl. by rewrite He.
    + unfold get at 1. rewrite lookup_insert.
      case_decide; [|done]. unfold get. by rewrite Hk.
  - case_decide; [|done]. subst k'. unfold get. rewrite Hk. set_solver.
Qed.

Lemma wf_empty : wf (∅ : gmap K (gset A)).
Proof. intros k s. by rewrite lookup_empty. Qed.

Lemma wf_add_data_set k s m : s ≠ ∅ → wf m → wf (add_data_set k s m).
Proof.
  intros Hs Hm k' s'. unfold add_data_set. rewrite lookup_insert.
  case_decide; [|by apply Hm].
  intros [= <-]. set_solver.
Qed.

Lemma wf_add_data_entry k a m : wf m → wf (add_data_entry k a m).
Proof. apply (wf_add_data_set k {[a]}). set_solver. Qed.

Lemma wf_delete k m : wf m → wf (delete k m).
Proof.
  intros Hm k' s'. rewrite lookup_delete.
  case_decide; [done|by apply Hm].
Qed.

Lemma wf_rm_data_entry k a m : wf m → wf (rm_data_entry k a m).
Proof.
  intros Hm. unfold rm_data_entry.
  destruct (m !! k) as [s|] eqn:Hk; [|done].
  case_decide as He; [by apply wf_delete|].
  intros k' s'. rewrite lookup_insert.
  case_decide; [|by apply Hm]. by intros [= <-].
Qed.

(** Among storages without empty sets, [get] tells storages apart. *)

Lemma wf_ext m1 m2 :
  wf m1 → wf m2 → (∀ k, get m1 k = get m2 k) → m1 = m2.
Proof.
  intros H1 H2 Hget. apply map_eq. intros k.
  specialize (Hget k). unfold get in Hget.
  destruct (m1 !! k) as [s1|] eqn:E1, (m2 !! k) as [s2|] eqn:E2;
    simpl in Hget.
  - by subst.
  - by destruct (H1 _ _ E1).
  - by destruct (H2 _ _ E2).
  - done.
Qed.

Lemma get_nonempty_is_Some m k a : a ∈ get m k → is_Some (m !! k).
Proof.
  unfold get. destruct (m !! k); [eauto|]. simpl. set_solver.
Qed.

Lemma get_lookup_None m k : m !! k = None → get m k = ∅.
Proof. unfold get. by intros ->. Qed.

Lemma get_lookup_Some m k s : m !! k = Some s → get m k = s.
Proof. unfold get. by intros ->. Qed.

Lemma wf_is_Some m k : wf m → is_Some (m !! k) → ∃ a, a ∈ get m k.
Proof.
  intros Hm [s Hs]. rewrite (get_lookup_Some _ _ _ Hs).
  apply set_choose_L. by eapply Hm.
Qed.

(** Folding entry-wise additions and removals over a list. *)

Lemma elem_of_get_foldr_add {B} (key : B → K) (val : B → A) (l : list B) m k a :
  a ∈ get (foldr (λ b, add_data_entry (key b) (val b)) m l) k
  ↔ a ∈ get m k ∨ ∃ b, b ∈ l ∧ key b = k ∧ val b = a.
Proof.
  induction l as [|b l IH]; simpl.
  - set_solver.
  - rewrite get_add_data_entry. case_decide; set_solver.
Qed.

Lemma elem_of_get_foldr_rm {B} (key : B → K) (val : B → A) (l : list B) m k a :
  a ∈ get (foldr (λ b, rm_data_entry (key b) (val b)) m l) k
  ↔ a ∈ get m k ∧ ¬ ∃ b, b ∈ l ∧ key b = k ∧ val b = a.
Proof.
  induction l as [|b l IH]; simpl.
  - set_solver.
  - rewrite get_rm_data_entry. case_decide; set_solver.
Qed.

Lemma wf_foldr_add {B} (key : B → K) (val : B → A) (l : list B) m :
  wf m → wf (foldr (λ b, add_data_entry (key b) (val b)) m l).
Proof. intros Hm. induction l; simpl; [done|by apply wf_add_data_entry]. Qed.

Lemma wf_foldr_rm {B} (key : B → K) (val : B → A) (l : list B) m :
  wf m → wf (foldr (λ b, rm_data_entry (key b) (val b)) m l).
Proof. intros Hm. induction l; simpl; [done|by apply wf_rm_data_entry]. Qed.

End facts.
End KeyedStorageFacts.

(** ** One storage update at a time *)

Section storage_updates.
Import KeyedStorage KeyedStorageFacts.
Implicit Types (r : AffectionRegister) (a b : Affector) (x y : Item).

Lemma affector_in_add_step r s0 a s b :
  affector_in
    (on_affector_storage (λ K _ _ key, add_data_entry key a) s0 r) s b
  ↔ affector_in r s b ∨ (b = a ∧ s = s0).
Proof.
  destruct s0, s; simpl; try (rewrite get_add_data_entry; case_decide);
    set_solver.
Qed.

Lemma affector_in_rm_step r s0 a s b :
  affector_in
    (on_affector_storage (λ K _ _ key, rm_data_entry key a) s0 r) s b
  ↔ affector_in r s b ∧ ¬ (b = a ∧ s = s0).
Proof.
  destruct s0, s; simpl; try (rewrite get_rm_data_entry; case_decide);
    set_solver.
Qed.

Lemma affector_in_add r l a s b :
  affector_in
    (foldl (λ r s0, on_affector_storage (λ K _ _ key, add_data_entry key a) s0 r)
       r l) s b
  ↔ affector_in r s b ∨ (b = a ∧ s ∈ l).
Proof.
  revert r. induction l as [|s0 l IH]; intros r; simpl.
  - set_solver.
  - rewrite IH, affector_in_add_step. set_solver.
Qed.

Lemma affector_in_rm r l a s b :
  affector_in
    (foldl (λ r s0, on_affector_storage (λ K _ _ key, rm_data_entry key a) s0 r)
       r l) s b
  ↔ affector_in r s b ∧ ¬ (b = a ∧ s ∈ l).
Proof.
  revert r. induction l as [|s0 l IH]; intros r; simpl.
  - set_solver.
  - rewrite IH, affector_in_rm_step. set_solver.
Qed.

Lemma affectee_in_add_step r s0 x s y :
  affectee_in
    (on_affectee_storage (λ K _ _ key, add_data_entry key x) s0 r) s y
  ↔ affectee_in r s y ∨ (y = x ∧ s = s0).
Proof.
  destruct s0, s; simpl; try (rewrite get_add_data_entry; case_decide);
    set_solver.
Qed.

Lemma affectee_in_rm_step r s0 x s y :
  affectee_in
    (on_affectee_storage (λ K _ _ key, rm_data_entry key x) s0 r) s y
  ↔ affectee_in r s y ∧ ¬ (y = x ∧ s = s0).
Proof.
  destruct s0, s; simpl; try (rewrite get_rm_data_entry; case_decide);
    set_solver.
Qed.

Lemma affectee_in_add r l x s y :
  affectee_in
    (foldl (λ r s0, on_affectee_storage (λ K _ _ key, add_data_entry key x) s0 r)
       r l) s y
  ↔ affectee_in r s y ∨ (y = x ∧ s ∈ l).
Proof.
  revert r. induction l as [|s0 l IH]; intros r; simpl.
  - set_solver.
  - rewrite IH, affectee_in_add_step. set_solver.
Qed.

Lemma affectee_in_rm r l x s y :
  affectee_in
    (foldl (λ r s0, on_affectee_storage (λ K _ _ key, rm_data_entry key x) s0 r)
       r l) s y
  ↔ affectee_in r s y ∧ ¬ (y = x ∧ s ∈ l).
Proof.
  revert r. induction l as [|s0 l IH]; intros r; simpl.
  - set_solver.
  - rewrite IH, affectee_in_rm_step. set_solver.
Qed.

End storage_updates.

(** ** Frames, well-formedness and extensionality *)

Section frames.
Import KeyedStorage KeyedStorageFacts.
Implicit Types (r : AffectionRegister) (a b : Affector) (x y : Item).

Lemma register_ext r1 r2 :
  wf_storages r1 → wf_storages r2 →
  __affectee r1 = __affectee r2 →
  (∀ s x, affectee_in r1 s x ↔ affectee_in r2 s x) →
  (∀ s a, affector_in r1 s a ↔ affector_in r2 s a) →
  r1 = r2.
Proof.
  intros [] [] He Hx Ha. destruct r1, r2; simpl in *. subst.
  f_equal; apply wf_ext; try done; intros k; apply set_eq; intros e.
  - apply (Hx (in_affectee_domain k)).
  - apply (Hx (in_affectee_domain_group k)).
  - apply (Hx (in_affectee_domain_skillrq k)).
  - apply (Hx (in_affectee_owner_skillrq k)).
  - apply (Ha (in_affector_item_other k)).
  - apply (Ha (in_affector_item_awaitable k)).
  - apply (Ha (in_affector_item_active k)).
  - apply (Ha (in_affector_domain k)).
  - apply (Ha (in_affector_domain_group k)).
  - apply (Ha (in_affector_domain_skillrq k)).
  - apply (Ha (in_affector_owner_skillrq k)).
Qed.

Lemma wf_storages_init : wf_storages init.
Proof. constructor; apply wf_empty. Qed.

(** Updates of affector maps leave the affectee side alone. *)

Lemma affector_fold_affectee f l r :
  __affectee (foldl (λ r s, on_affector_storage f s r) r l) = __affectee r.
Proof. revert r. induction l as [|s l IH]; intros r; simpl; [done|by rewrite IH]. Qed.

Lemma affector_fold_affectee_in f l r s x :
  affectee_in (foldl (λ r s, on_affector_storage f s r) r l) s x
  ↔ affectee_in r s x.
Proof.
  revert r. induction l as [|s0 l IH]; intros r; simpl; [done|].
  rewrite IH. by destruct s.
Qed.

(** Updates of affectee maps leave the affector side alone. *)

Lemma affectee_fold_affectee f l r :
  __affectee (foldl (λ r s, on_affectee_storage f s r) r l) = __affectee r.
Proof. revert r. induction l as [|s l IH]; intros r; simpl; [done|by rewrite IH]. Qed.

Lemma affectee_fold_affector_in f l r s a :
  affector_in (foldl (λ r s, on_affectee_storage f s r) r l) s a
  ↔ affector_in r s a.
Proof.
  revert r. induction l as [|s0 l IH]; intros r; simpl; [done|].
  rewrite IH. by destruct s.
Qed.

Lemma affectee_fold_active f l r :
  __affector_item_active (foldl (λ r s, on_affectee_storage f s r) r l)
  = __affector_item_active r.
Proof. revert r. induction l as [|s l IH]; intros r; simpl; [done|by rewrite IH]. Qed.

Lemma wf_storages_affector_add l a r :
  wf_storages r →
  wf_storages
    (foldl (λ r s, on_affector_storage (λ K _ _ key, add_data_entry key a) s r)
       r l).
Proof.
  revert r. induction l as [|s l IH]; intros r Hr; simpl; [done|].
  apply IH. destruct Hr, s; constructor; simpl; try done;
    by apply wf_add_data_entry.
Qed.

Lemma wf_storages_affector_rm l a r :
  wf_storages r →
  wf_storages
    (foldl (λ r s, on_affector_storage (λ K _ _ key, rm_data_entry key a) s r)
       r l).
Proof.
  revert r. induction l as [|s l IH]; intros r Hr; simpl; [done|].
  apply IH. destruct Hr, s; constructor; simpl; try done;
    by apply wf_rm_data_entry.
Qed.

Lemma wf_storages_affectee_add l x r :
  wf_storages r →
  wf_storages
    (foldl (λ r s, on_affectee_storage (λ K _ _ key, add_data_entry key x) s r)
       r l).
Proof.
  revert r. induction l as [|s l IH]; intros r Hr; simpl; [done|].
  apply IH. destruct Hr, s; constructor; simpl; try done;
    by apply wf_add_data_entry.
Qed.

Lemma wf_storages_affectee_rm l x r :
  wf_storages r →
  wf_storages
    (foldl (λ r s, on_affectee_storage (λ K _ _ key, rm_data_entry key x) s r)
       r l).
Proof.
  revert r. induction l as [|s l IH]; intros r Hr; simpl; [done|].
  apply IH. destruct Hr, s; constructor; simpl; try done;
    by apply wf_rm_data_entry.
Qed.

Lemma wf_storages_with_affectee f r :
  wf_storages r → wf_storages (with_affectee f r).
Proof. by intros []. Qed.

(** What the double loop over a storage collects. *)

Lemma elem_of_collect keep (m : gmap Item (gset Affector)) a :
  a ∈ collect keep m ↔ ∃ k, a ∈ get m k ∧ keep k a = true.
Proof.
  unfold collect. rewrite elem_of_union_list. split.
  - intros (s & Hs & Ha).
    apply list_elem_of_fmap in Hs as ([k s'] & -> & Hks).
    apply elem_of_map_to_list in Hks.
    apply elem_of_filter in Ha as [Hk Ha].
    exists k. by rewrite (get_lookup_Some _ _ _ Hks).
  - intros (k & Ha & Hk).
    destruct (get_nonempty_is_Some _ _ _ Ha) as [s Hs].
    rewrite (get_lookup_Some _ _ _ Hs) in Ha.
    exists (filter (λ a, keep k a = true) s). split.
    + apply list_elem_of_fmap. exists (k, s). split; [done|].
      by apply elem_of_map_to_list.
    + by apply elem_of_filter.
Qed.

End frames.

(** ** Activation and deactivation of direct affectors *)

Section direct_affectors.
Import KeyedStorage KeyedStorageFacts.
Variable svc : CalcSvc.
Implicit Types (r : AffectionRegister) (a b : Affector) (x y k : Item).

Lemma activate_affectee r x :
  __affectee (__activate_direct_affectors svc r x) = __affectee r.
Proof.
  unfold __activate_direct_affectors.
  repeat case_decide; done.
Qed.

Lemma activate_affectee_in r x s y :
  affectee_in (__activate_direct_affectors svc r x) s y ↔ affectee_in r s y.
Proof.
  unfold __activate_direct_affectors.
  repeat case_decide; by destruct s.
Qed.

Lemma activate_other r x :
  __affector_item_other (__activate_direct_affectors svc r x)
  = __affector_item_other r.
Proof.
  unfold __activate_direct_affectors.
  repeat case_decide; done.
Qed.

Lemma activate_awaitable r x k a :
  a ∈ get (__affector_item_awaitable (__activate_direct_affectors svc r x)) k
  ↔ a ∈ get (__affector_item_awaitable r) k
    ∧ ¬ (a ∈ promoted svc r x ∧ carrier_item a = k).
Proof.
  unfold __activate_direct_affectors. fold (promoted svc r x).
  destruct (decide (promoted svc r x = ∅)) as [He|He].
  - assert (a ∉ promoted svc r x) by set_solver.
    case_decide; simpl; naive_solver.
  - assert (a ∈ get
        (set_fold (λ affector, rm_data_entry (carrier_item affector) affector)
           (__affector_item_awaitable r) (promoted svc r x)) k
      ↔ a ∈ get (__affector_item_awaitable r) k
        ∧ ¬ (a ∈ promoted svc r x ∧ carrier_item a = k)) as Hfold.
    { unfold set_fold. simpl.
      rewrite (elem_of_get_foldr_rm carrier_item id). unfold id.
      split; intros [? Hn]; (split; [done|]); intros Hc; apply Hn.
      - destruct Hc as []. exists a. by rewrite elem_of_elements.
      - destruct Hc as (b & Hb & ? & ->). by apply elem_of_elements in Hb. }
    case_decide; simpl; done.
Qed.

Lemma activate_active r x k a :
  a ∈ get (__affector_item_active (__activate_direct_affectors svc r x)) k
  ↔ a ∈ get (__affector_item_active r) k
    ∨ (k = x ∧ (a ∈ promoted svc r x ∨ a ∈ replicated svc r x)).
Proof.
  unfold __activate_direct_affectors. fold (promoted svc r x).
  destruct (decide (promoted svc r x = ∅)) as [He|He].
  - fold (replicated svc r x).
    destruct (decide (replicated svc r x = ∅)) as [Ho|Ho]; simpl.
    + set_solver.
    + rewrite get_add_data_set. case_decide; set_solver.
  - simpl. fold (replicated svc r x).
    destruct (decide (replicated svc r x = ∅)) as [Ho|Ho]; simpl.
    + rewrite get_add_data_set. case_decide; set_solver.
    + rewrite !get_add_data_set.
      destruct (decide (x = k)) as [->|]; [|set_solver].
      rewrite decide_True by done. set_solver.
Qed.

Lemma activate_broadcast r x s a :
  match s with
  | in_affector_item_active _ | in_affector_item_awaitable _ => False
  | _ => True
  end →
  affector_in (__activate_direct_affectors svc r x) s a ↔ affector_in r s a.
Proof.
  unfold __activate_direct_affectors.
  repeat case_decide; by destruct s.
Qed.

Lemma activate_wf r x :
  wf_storages r → wf_storages (__activate_direct_affectors svc r x).
Proof.
  intros Hr. unfold __activate_direct_affectors. fold (promoted svc r x).
  assert (wf_storages
    (if decide (promoted svc r x = ∅) then r
     else with_affector_item_active (add_data_set x (promoted svc r x))
            (with_affector_item_awaitable
               (λ storage,
                  set_fold
                    (λ affector,
                       rm_data_entry (carrier_item affector) affector)
                    storage (promoted svc r x)) r))) as Hr1.
  { case_decide; [done|]. destruct Hr. constructor; simpl; try done.
    - unfold set_fold. simpl. by apply (wf_foldr_rm carrier_item id).
    - by apply wf_add_data_set. }
  revert Hr1. generalize (if decide (promoted svc r x = ∅) then r
     else with_affector_item_active (add_data_set x (promoted svc r x))
            (with_affector_item_awaitable
               (λ storage,
                  set_fold
                    (λ affector,
                       rm_data_entry (carrier_item affector) affector)
                    storage (promoted svc r x)) r)).
  intros r1 Hr1. case_decide; [done|].
  destruct Hr1. constructor; simpl; try done.
  by apply wf_add_data_set.
Qed.

(** Deactivation. *)

Lemma deactivate_affectee r x :
  __affectee (__deactivate_direct_affectors r x) = __affectee r.
Proof. unfold __deactivate_direct_affectors. by destruct (_ !! x). Qed.

Lemma deactivate_affectee_in r x s y :
  affectee_in (__deactivate_direct_affectors r x) s y ↔ affectee_in r s y.
Proof.
  unfold __deactivate_direct_affectors. destruct (_ !! x); by destruct s.
Qed.

Lemma deactivate_active_map r x :
  __affector_item_active (__deactivate_direct_affectors r x)
  = delete x (__affector_item_active r).
Proof.
  unfold __deactivate_direct_affectors.
  destruct (_ !! x) eqn:E; simpl; [done|].
  symmetry. by apply delete_id.
Qed.

Lemma deactivate_active r x k a :
  a ∈ get (__affector_item_active (__deactivate_direct_affectors r x)) k
  ↔ a ∈ get (__affector_item_active r) k ∧ k ≠ x.
Proof.
  rewrite deactivate_active_map, get_delete. case_decide; set_solver.
Qed.

Lemma deactivate_awaitable r x k a :
  a ∈ get (__affector_item_awaitable (__deactivate_direct_affectors r x)) k
  ↔ a ∈ get (__affector_item_awaitable r) k
    ∨ (a ∈ get (__affector_item_active r) x ∧ demotable a
       ∧ carrier_item a = k).
Proof.
  unfold __deactivate_direct_affectors.
  destruct (_ !! x) as [affectors|] eqn:E; simpl.
  - rewrite (get_lookup_Some _ _ _ E).
    unfold set_fold. simpl.
    rewrite (elem_of_get_foldr_add carrier_item id). unfold id.
    split; (intros [?|Hc]; [by left|right]).
    + destruct Hc as (b & Hb & ? & ->).
      apply elem_of_elements, elem_of_filter in Hb. naive_solver.
    + exists a. rewrite elem_of_elements, elem_of_filter. naive_solver.
  - rewrite (get_lookup_None _ _ E). set_solver.
Qed.

Lemma deactivate_broadcast r x s a :
  match s with
  | in_affector_item_active _ | in_affector_item_awaitable _ => False
  | _ => True
  end →
  affector_in (__deactivate_direct_affectors r x) s a ↔ affector_in r s a.
Proof.
  unfold __deactivate_direct_affectors. destruct (_ !! x); by destruct s.
Qed.

Lemma deactivate_wf r x :
  wf_storages r → wf_storages (__deactivate_direct_affectors r x).
Proof.
  intros Hr. unfold __deactivate_direct_affectors.
  destruct (_ !! x); [|done].
  destruct Hr. constructor; simpl; try done.
  - unfold set_fold. simpl. by apply (wf_foldr_add carrier_item id).
  - by apply wf_delete.
Qed.

End direct_affectors.

(** ** Registering and unregistering an affectee, index by index *)

Section affectee_calls.
Import KeyedStorage KeyedStorageFacts.
Variable svc : CalcSvc.
Implicit Types (r : AffectionRegister) (a b : Affector) (x y k : Item).

Lemma affectee_fold_affector_maps f l r :
  let r' := foldl (λ r s, on_affectee_storage f s r) r l in
  __affector_item_other r' = __affector_item_other r
  ∧ __affector_item_awaitable r' = __affector_item_awaitable r
  ∧ __affector_item_active r' = __affector_item_active r.
Proof.
  revert r. induction l as [|s l IH]; intros r; simpl; [done|].
  destruct (IH (on_affectee_storage f s r)) as (-> & -> & ->). done.
Qed.

Lemma register_affectee_affectee r x :
  __affectee (register_affectee svc r x) = __affectee r ∪ {[x]}.
Proof.
  unfold register_affectee.
  by rewrite activate_affectee, affectee_fold_affectee.
Qed.

Lemma register_affectee_affectee_in r x s y :
  affectee_in (register_affectee svc r x) s y
  ↔ affectee_in r s y ∨ (y = x ∧ s ∈ __get_affectee_storages x).
Proof.
  unfold register_affectee.
  rewrite activate_affectee_in, affectee_in_add. by destruct s.
Qed.

Lemma register_affectee_affector_in r x s a :
  affector_in (register_affectee svc r x) s a
  ↔ match s with
    | in_affector_item_active k =>
        a ∈ get (__affector_item_active r) k
        ∨ (k = x ∧ (a ∈ promoted svc r x ∨ a ∈ replicated svc r x))
    | in_affector_item_awaitable k =>
        a ∈ get (__affector_item_awaitable r) k
        ∧ ¬ (a ∈ promoted svc r x ∧ carrier_item a = k)
    | _ => affector_in r s a
    end.
Proof.
  unfold register_affectee.
  set (r1 := foldl _ _ _).
  assert (__affector_item_other r1 = __affector_item_other r
          ∧ __affector_item_awaitable r1 = __affector_item_awaitable r
          ∧ __affector_item_active r1 = __affector_item_active r)
    as (Ho & Hw & Ha).
  { apply (affectee_fold_affector_maps _ _ (with_affectee _ r)). }
  assert (promoted svc r1 x = promoted svc r x) as Hp
    by (unfold promoted; by rewrite Hw).
  assert (replicated svc r1 x = replicated svc r x) as Hr
    by (unfold replicated; by rewrite Ho).
  destruct s;
    try (etrans; [by apply activate_broadcast|];
         apply (affectee_fold_affector_in _ _ (with_affectee _ r)));
    simpl.
  - by rewrite activate_awaitable, Hw, Hp.
  - by rewrite activate_active, Ha, Hp, Hr.
Qed.

Lemma register_affectee_wf r x :
  wf_storages r → wf_storages (register_affectee svc r x).
Proof.
  intros Hr. unfold register_affectee.
  by apply activate_wf, wf_storages_affectee_add, wf_storages_with_affectee.
Qed.

Lemma unregister_affectee_affectee r x :
  __affectee (unregister_affectee r x) = __affectee r ∖ {[x]}.
Proof.
  unfold unregister_affectee.
  by rewrite deactivate_affectee, affectee_fold_affectee.
Qed.

Lemma unregister_affectee_affectee_in r x s y :
  affectee_in (unregister_affectee r x) s y
  ↔ affectee_in r s y ∧ ¬ (y = x ∧ s ∈ __get_affectee_storages x).
Proof.
  unfold unregister_affectee.
  rewrite deactivate_affectee_in, affectee_in_rm. by destruct s.
Qed.

Lemma unregister_affectee_affector_in r x s a :
  affector_in (unregister_affectee r x) s a
  ↔ match s with
    | in_affector_item_active k =>
        a ∈ get (__affector_item_active r) k ∧ k ≠ x
    | in_affector_item_awaitable k =>
        a ∈ get (__affector_item_awaitable r) k
        ∨ (a ∈ get (__affector_item_active r) x ∧ demotable a
           ∧ carrier_item a = k)
    | _ => affector_in r s a
    end.
Proof.
  unfold unregister_affectee.
  set (r1 := foldl _ _ _).
  assert (__affector_item_other r1 = __affector_item_other r
          ∧ __affector_item_awaitable r1 = __affector_item_awaitable r
          ∧ __affector_item_active r1 = __affector_item_active r)
    as (Ho & Hw & Ha).
  { apply (affectee_fold_affector_maps _ _ (with_affectee _ r)). }
  destruct s;
    try (etrans; [by apply deactivate_broadcast|];
         apply (affectee_fold_affector_in _ _ (with_affectee _ r)));
    simpl.
  - by rewrite deactivate_awaitable, Hw, Ha.
  - by rewrite deactivate_active, Ha.
Qed.

Lemma unregister_affectee_active_map r x :
  __affector_item_active (unregister_affectee r x)
  = delete x (__affector_item_active r).
Proof.
  unfold unregister_affectee. rewrite deactivate_active_map.
  f_equal. apply (affectee_fold_affector_maps _ _ (with_affectee _ r)).
Qed.

Lemma unregister_affectee_other_map r x :
  __affector_item_other (unregister_affectee r x) = __affector_item_other r.
Proof.
  unfold unregister_affectee, __deactivate_direct_affectors.
  set (r1 := foldl _ _ _).
  assert (__affector_item_other r1 = __affector_item_other r) as <-
    by apply (affectee_fold_affector_maps _ _ (with_affectee _ r)).
  by destruct (_ !! x).
Qed.

Lemma unregister_affectee_wf r x :
  wf_storages r → wf_storages (unregister_affectee r x).
Proof.
  intros Hr. unfold unregister_affectee.
  by apply deactivate_wf, wf_storages_affectee_rm, wf_storages_with_affectee.
Qed.

End affectee_calls.

(** ** Malformed modifiers *)

Section malformed_modifiers.
Import KeyedStorage KeyedStorageFacts.
Variable current_self : Z.
Variable svc : CalcSvc.
Implicit Types (r : AffectionRegister) (a b : Affector) (x y k : Item).

(** The exception a malformed modifier makes the storage lookup raise. *)

Lemma contextize_raises a :
  (∃ d, __contextize_tgt_filter_domain svc a = Return d)
  ∨ __contextize_tgt_filter_domain svc a
    = Raise (UnexpectedDomainError (tgt_domain (modifier a))).
Proof.
  unfold __contextize_tgt_filter_domain.
  destruct (tgt_domain (modifier a)); repeat case_decide; eauto.
Qed.

Lemma malformed_storages r a :
  malformed svc a = true →
  __get_affector_storages current_self svc r a
  = Raise (match tgt_filter (modifier a) with
           | ModTgtFilter.unknown _ =>
               UnknownTgtFilterError (tgt_filter (modifier a))
           | _ => UnexpectedDomainError (tgt_domain (modifier a))
           end).
Proof.
  unfold malformed, __get_affector_storages, __get_affector_storages_item,
    __get_affector_storages_domain, __get_affector_storages_domain_group,
    __get_affector_storages_domain_skillrq, __contextize_tgt_filter_domain.
  destruct (tgt_filter (modifier a)), (tgt_domain (modifier a));
    try done; simpl;
    intros [Hs Hc]%bool_decide_eq_true; by rewrite !decide_False.
Qed.

Lemma malformed_affectees r a :
  malformed svc a = true →
  get_affectees current_self svc r a
  = (∅, __handle_affector_errors
          (match tgt_filter (modifier a) with
           | ModTgtFilter.unknown _ =>
               UnknownTgtFilterError (tgt_filter (modifier a))
           | _ => UnexpectedDomainError (tgt_domain (modifier a))
           end) a).
Proof.
  unfold malformed, get_affectees, __get_affectees_item,
    __get_affectees_domain, __get_affectees_domain_group,
    __get_affectees_domain_skillrq, __contextize_tgt_filter_domain.
  destruct (tgt_filter (modifier a)), (tgt_domain (modifier a));
    try done; simpl;
    intros [Hs Hc]%bool_decide_eq_true; by rewrite !decide_False.
Qed.

Lemma well_formed_storages r a :
  malformed svc a = false →
  ∃ storages, __get_affector_storages current_self svc r a = Return storages.
Proof.
  unfold malformed, __get_affector_storages, __get_affector_storages_item,
    __get_affector_storages_domain, __get_affector_storages_domain_group,
    __get_affector_storages_domain_skillrq,
    __get_affector_storages_owner_skillrq, __contextize_tgt_filter_domain.
  destruct (tgt_filter (modifier a)), (tgt_domain (modifier a));
    try done; simpl; eauto;
    intros Hn%bool_decide_eq_false; repeat case_decide; simpl; eauto;
    by destruct Hn.
Qed.

Lemma register_affector_stores r a storages s :
  __get_affector_storages current_self svc r a = Return storages →
  s ∈ storages →
  (register_affector current_self svc r a).2 = []
  ∧ affector_in (register_affector current_self svc r a).1 s a.
Proof.
  intros Hl Hs. unfold register_affector. rewrite Hl. simpl.
  split; [done|]. apply affector_in_add. by right.
Qed.

(** C2, as amended: registering an affector whose modifier has an unknown
    target filter, or the [item] filter with a target domain which is
    none of [self], [character], [ship], [other], or one of the filters
    [domain], [domain_group], [domain_skillrq] with a target domain other
    than [character], [ship], or [self] on the current ship or character,
    logs exactly one warning, which names the carrier item's type id, and
    leaves every index of the register as it was: none of the affector's
    entries is added.  Whatever is asked of the register afterwards is
    answered as before the call, and the affector itself has no
    affectees.  With the [owner_skillrq] filter no target domain is
    rejected: the affector is stored under its skill type id and nothing
    is logged. *)
Theorem register_affector_malformed r a :
  (malformed svc a = true →
   ∃ record,
     register_affector current_self svc r a = (r, [record])
     ∧ levelno record = WARNING
     ∧ msg_type_id record = _type_id (carrier_item a)
     ∧ (msg record
          = unsupported_target_domain (_type_id (carrier_item a))
              (tgt_domain (modifier a))
        ∨ msg record
          = invalid_target_filter (_type_id (carrier_item a))
              (tgt_filter (modifier a)))
     ∧ (∀ s b,
          affector_in (register_affector current_self svc r a).1 s b
          ↔ affector_in r s b)
     ∧ (∀ x,
          get_affectors (register_affector current_self svc r a).1 x
          = get_affectors r x)
     ∧ (∀ b,
          get_affectees current_self svc
            (register_affector current_self svc r a).1 b
          = get_affectees current_self svc r b)
     ∧ (get_affectees current_self svc
          (register_affector current_self svc r a).1 a).1 = ∅)
  ∧ (tgt_filter (modifier a) = ModTgtFilter.owner_skillrq →
     malformed svc a = false
     ∧ (register_affector current_self svc r a).2 = []
     ∧ affector_in (register_affector current_self svc r a).1
         (in_affector_owner_skillrq (skill_type_id_of current_self a)) a).
Proof.
  split.
  - intros Hm. unfold register_affector.
    rewrite (malformed_storages r a Hm). simpl.
    rewrite (malformed_affectees r a Hm). simpl.
    destruct (tgt_filter (modifier a)) eqn:Ef; simpl;
      eexists; (split; [reflexivity|]); simpl; rewrite ?Ef; intuition.
  - intros Hf. split; [unfold malformed; by rewrite Hf|].
    apply (register_affector_stores r a
             [in_affector_owner_skillrq (skill_type_id_of current_self a)]).
    + unfold __get_affector_storages. by rewrite Hf.
    + by apply list_elem_of_singleton.
Qed.

End malformed_modifiers.

(** ** Contextized domains *)

Section contextized_domains.
Import KeyedStorage KeyedStorageFacts.
Variable current_self : Z.
Variable svc : CalcSvc.
Implicit Types (r : AffectionRegister) (a b : Affector) (x y k : Item).

(** C5, as amended: for a modifier whose filter is [domain],
    [domain_group] or [domain_skillrq] and whose target domain is [self],
    the register stores the affector under [ship] when the carrier is the
    current ship, under [character] when it is the current character, and
    otherwise rejects it with the unsupported-domain warning.  The
    [owner_skillrq] filter never reads the target domain: such an affector
    is stored under its skill type id and nothing is logged. *)
Theorem self_domain_contextized_by_filter r a :
  (tgt_filter (modifier a)
     ∈ [ModTgtFilter.domain; ModTgtFilter.domain_group;
        ModTgtFilter.domain_skillrq] →
   tgt_domain (modifier a) = ModDomain.self →
   self_domain_contextized current_self svc r a)
  ∧ (tgt_filter (modifier a) = ModTgtFilter.owner_skillrq →
     __get_affector_storages current_self svc r a
     = Return [in_affector_owner_skillrq (skill_type_id_of current_self a)]
     ∧ (register_affector current_self svc r a).2 = []
     ∧ affector_in (register_affector current_self svc r a).1
         (in_affector_owner_skillrq (skill_type_id_of current_self a)) a).
Proof.
  split.
  - intros Hf Hd. unfold self_domain_contextized, register_affector,
      broadcast_storage, __get_affector_storages,
      __get_affector_storages_domain, __get_affector_storages_domain_group,
      __get_affector_storages_domain_skillrq, __contextize_tgt_filter_domain.
    rewrite Hd.
    repeat (apply elem_of_cons in Hf as [->|Hf]);
      [| | |by apply elem_of_nil in Hf];
      (split; [|split]); intros; simpl;
      rewrite ?decide_True, ?decide_False by done; simpl;
      rewrite ?decide_True, ?decide_False by done; done.
  - intros Hf.
    assert (__get_affector_storages current_self svc r a
            = Return [in_affector_owner_skillrq
                        (skill_type_id_of current_self a)]) as Hl.
    { unfold __get_affector_storages. by rewrite Hf. }
    split; [done|].
    apply (register_affector_stores _ _ _ _ _ _ Hl). set_solver.
Qed.

(** C10: a broadcast modifier ([domain], [domain_group] or
    [domain_skillrq]) whose target domain is [other] is rejected: the
    register logs the unsupported-domain warning, stores the affector
    nowhere, and reports no affectees for it.  The same domain is accepted
    with the [item] filter, where the affector goes to the permanent
    'other' index of its carrier. *)
Theorem broadcast_other_rejected r a :
  tgt_filter (modifier a)
    ∈ [ModTgtFilter.domain; ModTgtFilter.domain_group;
       ModTgtFilter.domain_skillrq] →
  tgt_domain (modifier a) = ModDomain.other →
  let warning :=
    logger_warning
      (unsupported_target_domain (_type_id (carrier_item a)) ModDomain.other)
  in
  register_affector current_self svc r a = (r, [warning])
  ∧ get_affectees current_self svc r a = (∅, [warning])
  ∧ ∀ b,
      tgt_filter (modifier b) = ModTgtFilter.item →
      tgt_domain (modifier b) = ModDomain.other →
      (register_affector current_self svc r b).2 = []
      ∧ affector_in (register_affector current_self svc r b).1
          (in_affector_item_other (carrier_item b)) b.
Proof.
  intros Hf Hd. simpl.
  assert (malformed svc a = true) as Hm.
  { unfold malformed. rewrite Hd.
    repeat (apply elem_of_cons in Hf as [->|Hf]); try done.
    by apply elem_of_nil in Hf. }
  split; [|split].
  - unfold register_affector. rewrite (malformed_storages _ _ r a Hm).
    rewrite Hd. simpl.
    repeat (apply elem_of_cons in Hf as [->|Hf]); try done.
    by apply elem_of_nil in Hf.
  - rewrite (malformed_affectees _ _ r a Hm). rewrite Hd. simpl.
    repeat (apply elem_of_cons in Hf as [->|Hf]); try done.
    by apply elem_of_nil in Hf.
  - intros b Hbf Hbd.
    eapply (register_affector_stores current_self svc r b _
              (in_affector_item_other (carrier_item b))).
    + unfold __get_affector_storages, __get_affector_storages_item.
      rewrite Hbf, Hbd. reflexivity.
    + unfold __get_affector_storages_item_other. set_solver.
Qed.

End contextized_domains.

(** ** Unregistered items *)

Section unregistered_items.
Import KeyedStorage KeyedStorageFacts.
Implicit Types (r : AffectionRegister) (a b : Affector) (x y k : Item).

(** C9: an item which is not in the register's affectee set has no
    affectors, whatever the affector indices hold. *)
Theorem get_affectors_unregistered r x :
  x ∉ __affectee r → get_affectors r x = ∅.
Proof.
  intros Hx. unfold get_affectors. by rewrite decide_False.
Qed.

(** C3: unregistering a registered item removes its whole entry from the
    active index and leaves the other entries of that index alone.  Every
    affector removed with it whose target domain is [self], [character]
    or [ship] is afterwards in the awaitable index under its carrier.
    An affector removed with it whose target domain is [other] is put
    nowhere (after the call it is only where it was before), and the
    permanent 'other' index is unchanged. *)
Theorem unregister_affectee_deactivates r x :
  x ∈ __affectee r →
  let r' := unregister_affectee r x in
  __affector_item_active r' = delete x (__affector_item_active r)
  ∧ __affector_item_other r' = __affector_item_other r
  ∧ ∀ a,
      a ∈ get (__affector_item_active r) x →
      (tgt_domain (modifier a)
         ∈ [ModDomain.self; ModDomain.character; ModDomain.ship] →
       a ∈ get (__affector_item_awaitable r') (carrier_item a))
      ∧ (tgt_domain (modifier a) = ModDomain.other →
         ∀ s, affector_in r' s a → affector_in r s a).
Proof.
  intros _. simpl. split; [apply unregister_affectee_active_map|].
  split; [apply unregister_affectee_other_map|].
  intros a Ha. split.
  - intros Hd.
    apply (unregister_affectee_affector_in r x
             (in_affector_item_awaitable (carrier_item a))).
    right. split; [done|]. split; [|done].
    unfold demotable. set_solver.
  - intros Hd s Hs. apply unregister_affectee_affector_in in Hs.
    destruct s; try done.
    + destruct Hs as [?|(_ & Hdem & _)]; [done|].
      unfold demotable in Hdem. rewrite Hd in Hdem. set_solver.
    + by destruct Hs.
Qed.

End unregistered_items.

(** ** The invariants hold after every history *)

Section invariants.
Import KeyedStorage KeyedStorageFacts.
Variable current_self : Z.
Implicit Types (r : AffectionRegister) (a b : Affector) (x y k : Item).

Lemma invariant_init : invariant init.
Proof.
  constructor.
  - apply wf_storages_init.
  - intros [] x; simpl; rewrite get_empty; set_solver.
  - intros k. simpl. rewrite lookup_empty. by intros [? ?].
  - intros k a. simpl. rewrite get_empty. set_solver.
  - intros k a. simpl. rewrite get_empty. set_solver.
Qed.

Lemma awaits_demotable svc x k a : awaits svc x k a = true → demotable a.
Proof.
  unfold awaits, demotable. destruct (tgt_domain (modifier a)); try done;
    set_solver.
Qed.

Lemma invariant_register_affectee svc r x :
  invariant r → invariant (register_affectee svc r x).
Proof.
  intros [Hwf He Hact Haw Hoth].
  assert (wf_storages (register_affectee svc r x)) as Hwf'
    by by apply register_affectee_wf.
  constructor; [done|..].
  - intros s y.
    rewrite register_affectee_affectee_in, register_affectee_affectee.
    intros [Hy|[-> ?]]; [|set_solver].
    destruct (He _ _ Hy). set_solver.
  - intros k Hk. rewrite register_affectee_affectee.
    apply wf_is_Some in Hk as [a Ha]; [|by destruct Hwf'].
    apply (register_affectee_affector_in svc r x (in_affector_item_active k))
      in Ha as [Ha|[-> _]]; [|set_solver].
    apply elem_of_union_l, Hact. by eapply get_nonempty_is_Some.
  - intros k a Ha.
    apply (register_affectee_affector_in svc r x
             (in_affector_item_awaitable k)) in Ha as [Ha _].
    by apply Haw.
  - intros k a Ha.
    apply (register_affectee_affector_in svc r x (in_affector_item_other k))
      in Ha.
    by eapply Hoth.
Qed.

Lemma invariant_unregister_affectee r x :
  invariant r → invariant (unregister_affectee r x).
Proof.
  intros [Hwf He Hact Haw Hoth].
  assert (wf_storages (unregister_affectee r x)) as Hwf'
    by by apply unregister_affectee_wf.
  constructor; [done|..].
  - intros s y.
    rewrite unregister_affectee_affectee_in, unregister_affectee_affectee.
    intros [Hy Hn]. destruct (He _ _ Hy) as [? ?].
    split; [|done]. apply elem_of_difference. split; [done|].
    intros ->%elem_of_singleton. by apply Hn.
  - intros k Hk. rewrite unregister_affectee_affectee.
    apply wf_is_Some in Hk as [a Ha]; [|by destruct Hwf'].
    apply (unregister_affectee_affector_in r x (in_affector_item_active k))
      in Ha as [Ha Hne].
    apply elem_of_difference. split; [|set_solver].
    apply Hact. by eapply get_nonempty_is_Some.
  - intros k a Ha.
    apply (unregister_affectee_affector_in r x
             (in_affector_item_awaitable k)) in Ha as [Ha|(_ & ? & ?)];
      [by apply Haw|done].
  - intros k a Ha.
    apply (unregister_affectee_affector_in r x (in_affector_item_other k))
      in Ha.
    by eapply Hoth.
Qed.

(** Where [__get_affector_storages] may send an affector. *)

Lemma storages_shape svc r a storages s :
  __get_affector_storages current_self svc r a = Return storages →
  s ∈ storages →
  match s with
  | in_affector_item_active k => k ∈ __affectee r
  | in_affector_item_awaitable k => carrier_item a = k ∧ demotable a
  | in_affector_item_other k => tgt_domain (modifier a) = ModDomain.other
  | _ => True
  end.
Proof.
  unfold __get_affector_storages, __get_affector_storages_item,
    __get_affector_storages_domain, __get_affector_storages_domain_group,
    __get_affector_storages_domain_skillrq,
    __get_affector_storages_owner_skillrq,
    __get_affector_storages_item_self, __get_affector_storages_item_character,
    __get_affector_storages_item_ship, __get_affector_storages_item_other,
    __get_registered_affectees, demotable.
  destruct (tgt_filter (modifier a)); try done.
  - destruct (tgt_domain (modifier a)) eqn:Ed; try done;
      intros [= <-]; repeat case_match;
      rewrite ?elem_of_cons, ?list_elem_of_fmap; intros Hs;
      repeat match goal with
        | H : _ ∨ _ |- _ => destruct H
        | H : ∃ _, _ |- _ => destruct H as (? & -> & ?%elem_of_elements)
        | H : _ ∈ [] |- _ => by apply elem_of_nil in H
        end; subst; try done; set_solver.
  - destruct (__contextize_tgt_filter_domain svc a); simpl; [|done].
    intros [= <-] ->%list_elem_of_singleton. done.
  - destruct (__contextize_tgt_filter_domain svc a); simpl; [|done].
    intros [= <-] ->%list_elem_of_singleton. done.
  - destruct (__contextize_tgt_filter_domain svc a); simpl; [|done].
    intros [= <-] ->%list_elem_of_singleton. done.
  - intros [= <-] ->%list_elem_of_singleton. done.
Qed.

Lemma invariant_register_affector svc r a :
  invariant r → invariant (register_affector current_self svc r a).1.
Proof.
  intros Hr. unfold register_affector.
  destruct (__get_affector_storages current_self svc r a) as [l|e] eqn:El;
    simpl; [|done].
  destruct Hr as [Hwf He Hact Haw Hoth].
  assert (wf_storages
    (foldl (λ r s, on_affector_storage (λ K _ _ key, add_data_entry key a) s r)
       r l)) as Hwf' by by apply wf_storages_affector_add.
  constructor; [done|..].
  - intros s y. rewrite affector_fold_affectee_in, affector_fold_affectee.
    apply He.
  - intros k Hk. rewrite affector_fold_affectee.
    apply wf_is_Some in Hk as [b Hb]; [|by destruct Hwf'].
    apply (affector_in_add r l a (in_affector_item_active k)) in Hb
      as [Hb|[-> Hs]].
    + apply Hact. by eapply get_nonempty_is_Some.
    + apply (storages_shape _ _ _ _ _ El Hs).
  - intros k b Hb.
    apply (affector_in_add r l a (in_affector_item_awaitable k)) in Hb
      as [Hb|[-> Hs]]; [by apply Haw|].
    apply (storages_shape _ _ _ _ _ El Hs).
  - intros k b Hb.
    apply (affector_in_add r l a (in_affector_item_other k)) in Hb
      as [Hb|[-> Hs]]; [by eapply Hoth|].
    apply (storages_shape _ _ _ _ _ El Hs).
Qed.

Lemma invariant_unregister_affector svc r a :
  invariant r → invariant (unregister_affector current_self svc r a).1.
Proof.
  intros Hr. unfold unregister_affector.
  destruct (__get_affector_storages current_self svc r a) as [l|e] eqn:El;
    simpl; [|done].
  destruct Hr as [Hwf He Hact Haw Hoth].
  assert (wf_storages
    (foldl (λ r s, on_affector_storage (λ K _ _ key, rm_data_entry key a) s r)
       r l)) as Hwf' by by apply wf_storages_affector_rm.
  constructor; [done|..].
  - intros s y. rewrite affector_fold_affectee_in, affector_fold_affectee.
    apply He.
  - intros k Hk. rewrite affector_fold_affectee.
    apply wf_is_Some in Hk as [b Hb]; [|by destruct Hwf'].
    apply (affector_in_rm r l a (in_affector_item_active k)) in Hb as [Hb _].
    apply Hact. by eapply get_nonempty_is_Some.
  - intros k b Hb.
    apply (affector_in_rm r l a (in_affector_item_awaitable k)) in Hb
      as [Hb _].
    by apply Haw.
  - intros k b Hb.
    apply (affector_in_rm r l a (in_affector_item_other k)) in Hb as [Hb _].
    by eapply Hoth.
Qed.

Lemma invariant_call svc r c :
  invariant r → invariant (call current_self svc r c).
Proof.
  destruct c; simpl.
  - apply invariant_register_affectee.
  - apply invariant_unregister_affectee.
  - apply invariant_register_affector.
  - apply invariant_unregister_affector.
Qed.

Lemma run_snoc history svc c :
  run current_self (history ++ [(svc, c)])
  = call current_self svc (run current_self history) c.
Proof. unfold run. by rewrite foldl_app. Qed.

Lemma invariant_run history : invariant (run current_self history).
Proof.
  induction history as [|[svc c] history IH] using rev_ind.
  - apply invariant_init.
  - rewrite run_snoc. by apply invariant_call.
Qed.

End invariants.

(** ** Adding an item and removing it again *)

Section roundtrip.
Import KeyedStorage KeyedStorageFacts.
Variable current_self : Z.
Implicit Types (r : AffectionRegister) (a b : Affector) (x y k : Item).

Lemma active_register_affectee svc r x k a :
  a ∈ get (__affector_item_active (register_affectee svc r x)) k
  ↔ a ∈ get (__affector_item_active r) k
    ∨ (k = x ∧ (a ∈ promoted svc r x ∨ a ∈ replicated svc r x)).
Proof. apply (register_affectee_affector_in svc r x (in_affector_item_active k)). Qed.

Lemma awaitable_register_affectee svc r x k a :
  a ∈ get (__affector_item_awaitable (register_affectee svc r x)) k
  ↔ a ∈ get (__affector_item_awaitable r) k
    ∧ ¬ (a ∈ promoted svc r x ∧ carrier_item a = k).
Proof.
  apply (register_affectee_affector_in svc r x (in_affector_item_awaitable k)).
Qed.

Lemma unregister_register_affectee svc r x :
  invariant r → x ∉ __affectee r →
  unregister_affectee (register_affectee svc r x) x = r.
Proof.
  intros [Hwf He Hact Haw Hoth] Hx.
  apply register_ext.
  - by apply unregister_affectee_wf, register_affectee_wf.
  - done.
  - rewrite unregister_affectee_affectee, register_affectee_affectee.
    set_solver.
  - intros s y.
    rewrite unregister_affectee_affectee_in, register_affectee_affectee_in.
    split; [|intros Hy; destruct (He _ _ Hy)]; naive_solver.
  - intros s a. rewrite unregister_affectee_affector_in.
    destruct s; try apply register_affectee_affector_in.
    + (* awaitable *)
      rewrite active_register_affectee, awaitable_register_affectee. simpl.
      split.
      * intros [[? _]|([Ha|[_ [Hp|Ho]]] & Hdem & Hk)]; [done|..].
        -- destruct Hx. apply Hact. by eapply get_nonempty_is_Some.
        -- apply elem_of_collect in Hp as (k' & Hk' & _).
           destruct (Haw _ _ Hk') as [Hc _]. congruence.
        -- apply elem_of_collect in Ho as (k' & Hk' & _).
           apply Hoth in Hk'. unfold demotable in Hdem.
           rewrite Hk' in Hdem. set_solver.
      * intros Ha. destruct (Haw _ _ Ha) as [Hc _].
        destruct (decide (a ∈ promoted svc r x)) as [Hp|Hp].
        -- right. split; [by right; split; [|left]|]. split; [|done].
           apply elem_of_collect in Hp as (k' & _ & Hk').
           by eapply awaits_demotable.
        -- left. naive_solver.
    + (* active *)
      rewrite active_register_affectee. simpl. split.
      * intros [[?|[? _]] ?]; done.
      * intros Ha. split; [by left|]. intros ->.
        apply Hx, Hact. by eapply get_nonempty_is_Some.
Qed.

(** C4: after any history of calls, registering an item which is not in
    the register and unregistering it at once leaves the register as it
    was: the affectee set, the four affectee maps, the active, awaitable
    and 'other' indices and the four broadcast affector maps are those of
    before. *)
Theorem register_unregister_affectee_roundtrip history svc x :
  x ∉ __affectee (run current_self history) →
  unregister_affectee
    (register_affectee svc (run current_self history) x) x
  = run current_self history.
Proof.
  intros Hx. apply unregister_register_affectee; [|done].
  apply invariant_run.
Qed.

End roundtrip.

(** ** Registered affectors are where the register looks for them *)

Section located_affectors.
Import KeyedStorage KeyedStorageFacts.
Variable current_self : Z.
Variable svc : CalcSvc.
Implicit Types (r : AffectionRegister) (a b : Affector) (x y k : Item).
Implicit Types (R : gset Affector).

Lemma storages_direct r a :
  tgt_filter (modifier a) = ModTgtFilter.item →
  demotable a →
  __get_affector_storages current_self svc r a
  = Return
      match direct_target svc a with
      | Some t =>
          if decide (t ∈ __affectee r) then [in_affector_item_active t]
          else [in_affector_item_awaitable (carrier_item a)]
      | None => [in_affector_item_awaitable (carrier_item a)]
      end.
Proof.
  intros Hf Hd.
  unfold __get_affector_storages, __get_affector_storages_item,
    __get_affector_storages_item_self, __get_affector_storages_item_character,
    __get_affector_storages_item_ship, direct_target.
  rewrite Hf. unfold demotable in Hd.
  destruct (tgt_domain (modifier a)); try done; set_solver.
Qed.

Lemma storages_other r a :
  tgt_filter (modifier a) = ModTgtFilter.item →
  tgt_domain (modifier a) = ModDomain.other →
  __get_affector_storages current_self svc r a
  = Return
      (in_affector_item_other (carrier_item a)
       :: map in_affector_item_active
            (elements (__affectee r ∩ _others svc (carrier_item a)))).
Proof.
  intros Hf Hd.
  unfold __get_affector_storages, __get_affector_storages_item.
  by rewrite Hf, Hd.
Qed.

Lemma storages_item_domain r a storages :
  tgt_filter (modifier a) = ModTgtFilter.item →
  __get_affector_storages current_self svc r a = Return storages →
  demotable a ∨ tgt_domain (modifier a) = ModDomain.other.
Proof.
  intros Hf.
  unfold __get_affector_storages, __get_affector_storages_item, demotable.
  rewrite Hf. destruct (tgt_domain (modifier a)); try done; set_solver.
Qed.

Lemma storages_broadcast r1 r2 a :
  tgt_filter (modifier a) ≠ ModTgtFilter.item →
  __get_affector_storages current_self svc r1 a
  = __get_affector_storages current_self svc r2 a.
Proof.
  intros Hf. unfold __get_affector_storages.
  by destruct (tgt_filter (modifier a)).
Qed.

Lemma storages_broadcast_kind r a storages s :
  tgt_filter (modifier a) ≠ ModTgtFilter.item →
  __get_affector_storages current_self svc r a = Return storages →
  s ∈ storages →
  ¬ direct_storage s.
Proof.
  intros Hf.
  unfold __get_affector_storages, __get_affector_storages_domain,
    __get_affector_storages_domain_group,
    __get_affector_storages_domain_skillrq,
    __get_affector_storages_owner_skillrq.
  destruct (tgt_filter (modifier a)); try done;
    destruct (__contextize_tgt_filter_domain svc a); simpl; try done;
    intros [= <-] ->%list_elem_of_singleton; by intros [].
Qed.

Lemma storages_same_affectee r1 r2 a :
  __affectee r1 = __affectee r2 →
  __get_affector_storages current_self svc r1 a
  = __get_affector_storages current_self svc r2 a.
Proof.
  intros He.
  unfold __get_affector_storages, __get_affector_storages_item,
    __get_affector_storages_item_self, __get_affector_storages_item_character,
    __get_affector_storages_item_ship, __get_affector_storages_item_other,
    __get_registered_affectees.
  by rewrite He.
Qed.

Lemma awaits_direct x a :
  awaits svc x (carrier_item a) a = true → direct_target svc a = Some x.
Proof.
  unfold awaits, direct_target.
  destruct (tgt_domain (modifier a)); try done;
    intros ?%bool_decide_eq_true; congruence.
Qed.

Lemma direct_awaits x a :
  demotable a → direct_target svc a = Some x →
  awaits svc x (carrier_item a) a = true.
Proof.
  unfold awaits, direct_target, demotable.
  destruct (tgt_domain (modifier a)); try set_solver;
    intros _ ?; apply bool_decide_eq_true; congruence.
Qed.

Lemma located_init : located current_self svc ∅ init.
Proof. intros a l s Ha. set_solver. Qed.

Lemma located_register_affector R r b :
  located current_self svc R r →
  located current_self svc (R ∪ {[b]})
    (register_affector current_self svc r b).1.
Proof.
  intros HR a l s Ha Hl Hs.
  assert (__affectee (register_affector current_self svc r b).1
          = __affectee r) as He.
  { unfold register_affector. destruct (__get_affector_storages _ _ r b);
      simpl; [apply affector_fold_affectee|done]. }
  rewrite (storages_same_affectee _ r a He) in Hl.
  unfold register_affector.
  destruct (__get_affector_storages _ _ r b) as [lb|e] eqn:Eb; simpl.
  - apply affector_in_add.
    destruct (decide (a = b)) as [->|Hne].
    + right. split; [done|]. congruence.
    + left. eapply HR; [|done..]. set_solver.
  - destruct (decide (a = b)) as [->|Hne]; [congruence|].
    eapply HR; [|done..]. set_solver.
Qed.

Lemma located_unregister_affector R r b :
  located current_self svc R r →
  located current_self svc (R ∖ {[b]})
    (unregister_affector current_self svc r b).1.
Proof.
  intros HR a l s Ha Hl Hs.
  assert (__affectee (unregister_affector current_self svc r b).1
          = __affectee r) as He.
  { unfold unregister_affector. destruct (__get_affector_storages _ _ r b);
      simpl; [apply affector_fold_affectee|done]. }
  rewrite (storages_same_affectee _ r a He) in Hl.
  assert (a ∈ R ∧ a ≠ b) as [HaR Hne] by set_solver.
  unfold unregister_affector.
  destruct (__get_affector_storages _ _ r b) as [lb|e] eqn:Eb; simpl.
  - apply affector_in_rm. split; [by eapply HR|]. by intros [? _].
  - by eapply HR.
Qed.

Lemma located_register_affectee R r x :
  invariant r →
  located current_self svc R r →
  located current_self svc R (register_affectee svc r x).
Proof.
  intros [Hwf He Hact Haw Hoth] HR a l s Ha Hl Hs.
  apply register_affectee_affector_in.
  destruct (decide (tgt_filter (modifier a) = ModTgtFilter.item)) as [Hf|Hf].
  - destruct (storages_item_domain _ _ _ Hf Hl) as [Hd|Hd].
    + (* one target item *)
      rewrite (storages_direct _ _ Hf Hd) in Hl. injection Hl as <-.
      pose proof (λ s, HR a _ s Ha (storages_direct r a Hf Hd)) as Hold.
      rewrite register_affectee_affectee in Hs.
      assert (∀ k, a ∈ promoted svc r x → a ∈ get (__affector_item_awaitable r) k
                → direct_target svc a = Some x) as Hprom.
      { intros k (k' & Hk' & Hw)%elem_of_collect _.
        destruct (Haw _ _ Hk') as [<- _]. by apply awaits_direct. }
      destruct (direct_target svc a) as [t|] eqn:Et.
      * destruct (decide (t ∈ __affectee r ∪ {[x]})) as [Ht|Ht];
          apply list_elem_of_singleton in Hs as ->.
        -- destruct (decide (t ∈ __affectee r)) as [Ht'|Ht'].
           ++ left. apply (Hold (in_affector_item_active t)). set_solver.
           ++ assert (t = x) as -> by set_solver.
              right. split; [done|]. left.
              apply elem_of_collect. exists (carrier_item a). split.
              ** apply (Hold (in_affector_item_awaitable (carrier_item a))).
                 set_solver.
              ** by apply direct_awaits.
        -- rewrite decide_False in Hold by set_solver.
           split.
           ++ apply (Hold (in_affector_item_awaitable (carrier_item a))).
              set_solver.
           ++ intros [Hp _].
              assert (Some t = Some x) as [= ->]; [|set_solver].
              eapply Hprom; [done|].
              apply (Hold (in_affector_item_awaitable (carrier_item a))).
              set_solver.
      * apply list_elem_of_singleton in Hs as ->. split.
        -- apply (Hold (in_affector_item_awaitable (carrier_item a))).
           set_solver.
        -- intros [Hp _].
           assert (None = Some x); [|done].
           eapply Hprom; [done|].
           apply (Hold (in_affector_item_awaitable (carrier_item a))).
           set_solver.
    + (* other *)
      rewrite (storages_other _ _ Hf Hd) in Hl. injection Hl as <-.
      pose proof (λ s, HR a _ s Ha (storages_other r a Hf Hd)) as Hold.
      rewrite register_affectee_affectee in Hs.
      apply elem_of_cons in Hs as [->|Hs].
      * apply (Hold (in_affector_item_other (carrier_item a))). set_solver.
      * apply list_elem_of_fmap in Hs as (o & -> & Ho%elem_of_elements).
        destruct (decide (o ∈ __affectee r)) as [Ho'|Ho'].
        -- left. apply (Hold (in_affector_item_active o)).
           apply elem_of_cons. right. apply list_elem_of_fmap.
           exists o. split; [done|]. apply elem_of_elements. set_solver.
        -- assert (o = x) as -> by set_solver.
           right. split; [done|]. right.
           apply elem_of_collect. exists (carrier_item a). split.
           ++ apply (Hold (in_affector_item_other (carrier_item a))).
              set_solver.
           ++ apply bool_decide_eq_true. set_solver.
  - (* broadcast *)
    pose proof (storages_broadcast_kind _ _ _ _ Hf Hl Hs) as Hk.
    rewrite (storages_broadcast _ r a Hf) in Hl.
    pose proof (HR a _ _ Ha Hl Hs) as Hold.
    destruct s; try done; by destruct Hk.
Qed.

Lemma located_unregister_affectee R r x :
  invariant r →
  located current_self svc R r →
  located current_self svc R (unregister_affectee r x).
Proof.
  intros [Hwf He Hact Haw Hoth] HR a l s Ha Hl Hs.
  apply unregister_affectee_affector_in.
  destruct (decide (tgt_filter (modifier a) = ModTgtFilter.item)) as [Hf|Hf].
  - destruct (storages_item_domain _ _ _ Hf Hl) as [Hd|Hd].
    + rewrite (storages_direct _ _ Hf Hd) in Hl. injection Hl as <-.
      pose proof (λ s, HR a _ s Ha (storages_direct r a Hf Hd)) as Hold.
      rewrite unregister_affectee_affectee in Hs.
      destruct (direct_target svc a) as [t|] eqn:Et.
      * destruct (decide (t ∈ __affectee r ∖ {[x]})) as [Ht|Ht];
          apply list_elem_of_singleton in Hs as ->.
        -- rewrite decide_True in Hold by set_solver.
           split; [|set_solver].
           apply (Hold (in_affector_item_active t)). set_solver.
        -- destruct (decide (t ∈ __affectee r)) as [Ht'|Ht'].
           ++ assert (t = x) as ->.
              { destruct (decide (t = x)); [done|]. destruct Ht.
                apply elem_of_difference. split; [done|].
                by intros ?%elem_of_singleton. }
              right. split; [|done].
              apply (Hold (in_affector_item_active x)).
              by apply list_elem_of_singleton.
           ++ left.
              apply (Hold (in_affector_item_awaitable (carrier_item a))).
              set_solver.
      * apply list_elem_of_singleton in Hs as ->. left.
        apply (Hold (in_affector_item_awaitable (carrier_item a))).
        set_solver.
    + rewrite (storages_other _ _ Hf Hd) in Hl. injection Hl as <-.
      pose proof (λ s, HR a _ s Ha (storages_other r a Hf Hd)) as Hold.
      rewrite unregister_affectee_affectee in Hs.
      apply elem_of_cons in Hs as [->|Hs].
      * apply (Hold (in_affector_item_other (carrier_item a))). set_solver.
      * apply list_elem_of_fmap in Hs as (o & -> & Ho%elem_of_elements).
        split; [|set_solver].
        apply (Hold (in_affector_item_active o)).
        apply elem_of_cons. right. apply list_elem_of_fmap.
        exists o. split; [done|]. apply elem_of_elements. set_solver.
  - pose proof (storages_broadcast_kind _ _ _ _ Hf Hl Hs) as Hk.
    rewrite (storages_broadcast _ r a Hf) in Hl.
    pose proof (HR a _ _ Ha Hl Hs) as Hold.
    destruct s; try done; by destruct Hk.
Qed.

End located_affectors.

(** ** Affectees and affectors agree *)

Section agreement.
Import KeyedStorage KeyedStorageFacts.
Variable current_self : Z.
Variable svc : CalcSvc.
Implicit Types (r : AffectionRegister) (a b : Affector) (x y k : Item).

Lemma registered_snoc calls c :
  registered (calls ++ [c])
  = match c with
    | call_register_affector a => registered calls ∪ {[a]}
    | call_unregister_affector a => registered calls ∖ {[a]}
    | _ => registered calls
    end.
Proof. unfold registered. by rewrite foldl_app. Qed.

Lemma located_run calls :
  located current_self svc (registered calls)
    (run current_self (steady svc calls)).
Proof.
  induction calls as [|c calls IH] using rev_ind.
  - apply located_init.
  - unfold steady. rewrite fmap_app. simpl. rewrite run_snoc, registered_snoc.
    pose proof (invariant_run current_self (pair svc <$> calls)) as Hinv.
    destruct c; simpl.
    + by apply located_register_affectee.
    + by apply located_unregister_affectee.
    + by apply located_register_affector.
    + by apply located_unregister_affector.
Qed.

(** Where an item is stored as affectee tells its domain, group and
    skill requirements. *)

Lemma affectee_storages_elem x s :
  s ∈ __get_affectee_storages x →
  match s with
  | in_affectee_domain d => _modifier_domain x = Some d
  | in_affectee_domain_group (d, g) =>
      _modifier_domain x = Some d ∧ g = group_id x
  | in_affectee_domain_skillrq (d, sk) =>
      _modifier_domain x = Some d
      ∧ ∃ z, z ∈ required_skills x ∧ sk = Some z
  | in_affectee_owner_skillrq sk =>
      _owner_modifiable x = true
      ∧ ∃ z, z ∈ required_skills x ∧ sk = Some z
  end.
Proof.
  unfold __get_affectee_storages.
  rewrite elem_of_app. intros [Hs|Hs].
  - destruct (_modifier_domain x) as [d|]; [|by apply elem_of_nil in Hs].
    rewrite !elem_of_app in Hs. destruct Hs as [Hs|[Hs|Hs]].
    + by apply list_elem_of_singleton in Hs as ->.
    + destruct (group_id x); [|by apply elem_of_nil in Hs].
      by apply list_elem_of_singleton in Hs as ->.
    + apply list_elem_of_fmap in Hs as (z & -> & Hz). eauto.
  - destruct (_owner_modifiable x); [|by apply elem_of_nil in Hs].
    apply list_elem_of_fmap in Hs as (z & -> & Hz). eauto.
Qed.

Lemma get_affectors_active r x a :
  x ∈ __affectee r →
  a ∈ get (__affector_item_active r) x →
  a ∈ get_affectors r x.
Proof.
  intros Hx Ha. unfold get_affectors. rewrite decide_True by done.
  set_solver.
Qed.

Lemma affectees_affected r R a x :
  invariant r →
  located current_self svc R r →
  a ∈ R →
  x ∈ (get_affectees current_self svc r a).1 →
  x ∈ __affectee r ∧ a ∈ get_affectors r x.
Proof.
  intros [Hwf He Hact Haw Hoth] HR Ha.
  pose proof (λ l s, HR a l s Ha) as Hloc. clear HR.
  unfold get_affectees.
  unfold __get_affector_storages in Hloc.
  destruct (tgt_filter (modifier a)) eqn:Ef; simpl.
  - (* item *)
    unfold __get_affectees_item, __get_affector_storages_item in *.
    unfold __get_affectees_item_self, __get_affectees_item_character,
      __get_affectees_item_ship, __get_affectees_item_other,
      __get_registered_affectees.
    unfold __get_affector_storages_item_self,
      __get_affector_storages_item_character,
      __get_affector_storages_item_ship,
      __get_affector_storages_item_other,
      __get_registered_affectees in Hloc.
    destruct (tgt_domain (modifier a)) eqn:Ed; simpl;
      [| | | |set_solver].
    + intros [Hx ->%elem_of_singleton]%elem_of_intersection.
      split; [done|]. apply get_affectors_active; [done|].
      rewrite decide_True in Hloc by done.
      apply (Hloc _ (in_affector_item_active (carrier_item a)) eq_refl).
      set_solver.
    + destruct (_current_char svc) as [c|]; [|set_solver].
      intros [Hx ->%elem_of_singleton]%elem_of_intersection.
      split; [done|]. apply get_affectors_active; [done|].
      rewrite decide_True in Hloc by done.
      apply (Hloc _ (in_affector_item_active c) eq_refl). set_solver.
    + destruct (_current_ship svc) as [c|]; [|set_solver].
      intros [Hx ->%elem_of_singleton]%elem_of_intersection.
      split; [done|]. apply get_affectors_active; [done|].
      rewrite decide_True in Hloc by done.
      apply (Hloc _ (in_affector_item_active c) eq_refl). set_solver.
    + intros Hx. split; [set_solver|].
      apply get_affectors_active; [set_solver|].
      apply (Hloc _ (in_affector_item_active x) eq_refl).
      apply elem_of_cons. right. apply list_elem_of_fmap.
      exists x. split; [done|]. by apply elem_of_elements.
  - (* domain *)
    unfold __get_affectees_domain, __get_affector_storages_domain in *.
    destruct (__contextize_tgt_filter_domain svc a) as [d|]; simpl in *;
      [|set_solver].
    intros Hx.
    destruct (He (in_affectee_domain d) x Hx)
      as [Hin Hd%affectee_storages_elem].
    split; [done|]. unfold get_affectors.
    rewrite decide_True by done. rewrite Hd.
    pose proof (Hloc _ (in_affector_domain d) eq_refl) as Hl. simpl in Hl.
    set_solver.
  - (* domain and group *)
    unfold __get_affectees_domain_group,
      __get_affector_storages_domain_group in *.
    destruct (__contextize_tgt_filter_domain svc a) as [d|]; simpl in *;
      [|set_solver].
    intros Hx.
    destruct (He (in_affectee_domain_group
                    (d, tgt_filter_extra_arg (modifier a))) x Hx)
      as [Hin [Hd Hg]%affectee_storages_elem].
    split; [done|]. unfold get_affectors.
    rewrite decide_True by done. rewrite Hd, <- Hg.
    pose proof (Hloc _ (in_affector_domain_group
                          (d, tgt_filter_extra_arg (modifier a))) eq_refl)
      as Hl. simpl in Hl.
    set_solver.
  - (* domain and skill requirement *)
    unfold __get_affectees_domain_skillrq,
      __get_affector_storages_domain_skillrq in *.
    destruct (__contextize_tgt_filter_domain svc a) as [d|]; simpl in *;
      [|set_solver].
    intros Hx.
    destruct (He (in_affectee_domain_skillrq
                    (d, skill_type_id_of current_self a)) x Hx)
      as [Hin [Hd (z & Hz & Hsk)]%affectee_storages_elem].
    split; [done|]. unfold get_affectors.
    rewrite decide_True by done. rewrite Hd.
    pose proof (Hloc _ (in_affector_domain_skillrq
                          (d, skill_type_id_of current_self a)) eq_refl)
      as Hl. simpl in Hl. rewrite Hsk in Hl.
    apply elem_of_union_l, elem_of_union_r, elem_of_union_r,
      elem_of_union_list.
    eexists. split; [|apply Hl; set_solver].
    apply list_elem_of_fmap. by exists z.
  - (* owner-modifiable and skill requirement *)
    unfold __get_affectees_owner_skillrq,
      __get_affector_storages_owner_skillrq in *. simpl.
    intros Hx.
    destruct (He (in_affectee_owner_skillrq
                    (skill_type_id_of current_self a)) x Hx)
      as [Hin [Hd (z & Hz & Hsk)]%affectee_storages_elem].
    split; [done|]. unfold get_affectors.
    rewrite decide_True by done. rewrite Hd.
    pose proof (Hloc _ (in_affector_owner_skillrq
                          (skill_type_id_of current_self a)) eq_refl)
      as Hl. simpl in Hl. rewrite Hsk in Hl.
    apply elem_of_union_r, elem_of_union_list.
    eexists. split; [|apply Hl; set_solver].
    apply list_elem_of_fmap. by exists z.
  - set_solver.
Qed.

Lemma located_in_step svc0 R r :
  located current_self svc0 R r →
  in_step current_self svc0 svc R r →
  located current_self svc R r.
Proof.
  intros Hloc Hstep a l s Ha Hl Hs.
  specialize (Hstep a Ha). unfold keeps_storages in Hstep.
  rewrite Hl in Hstep. by eapply Hloc.
Qed.

End agreement.

Section agreement_in_step.
Variable current_self : Z.
Implicit Types (r : AffectionRegister) (a b : Affector) (x y k : Item).

Lemma located_call svc R r c :
  invariant r →
  located current_self svc R r →
  located current_self svc
    match c with
    | call_register_affector a => R ∪ {[a]}
    | call_unregister_affector a => R ∖ {[a]}
    | _ => R
    end
    (call current_self svc r c).
Proof.
  intros Hinv Hloc. destruct c; simpl.
  - by apply located_register_affectee.
  - by apply located_unregister_affectee.
  - by apply located_register_affector.
  - by apply located_unregister_affector.
Qed.

Lemma located_kept_in_step history svc0 R r svc :
  invariant r →
  located current_self svc0 R r →
  kept_in_step_from current_self svc0 R r history svc →
  located current_self svc
    (foldl
       (λ R c,
          match c with
          | call_register_affector a => R ∪ {[a]}
          | call_unregister_affector a => R ∖ {[a]}
          | _ => R
          end)
       R history.*2)
    (foldl (λ r '(svc, c), call current_self svc r c) r history).
Proof.
  revert svc0 R r.
  induction history as [|[svc1 c] history IH]; intros svc0 R r Hinv Hloc;
    simpl.
  - intros Hstep. by eapply located_in_step.
  - intros [Hstep Hrest]. eapply IH; [|by apply located_call, (located_in_step _ _ svc0)|done].
    by apply invariant_call.
Qed.

Lemma steady_kept_in_step svc calls :
  kept_in_step current_self (steady svc calls) svc.
Proof.
  unfold kept_in_step. generalize (∅ : gset Affector) init.
  induction calls as [|c calls IH]; intros R r; simpl.
  - intros a _. unfold keeps_storages. by destruct (__get_affector_storages _ _ _ _).
  - split; [|apply IH].
    intros a _. unfold keeps_storages. by destruct (__get_affector_storages _ _ _ _).
Qed.

(** C1, as amended: after any history of calls during which the fit's
    ship, character and [_others] change only at moments when the register
    computes, for every registered affector, the same storages under the
    new ones as under the old ones (or raises) -- so while they stay as
    they are, or when the old ship is unregistered before the new one
    takes its place --, every item [get_affectees] returns for an affector
    which has been registered and not since unregistered is in the
    register's affectee set, and the affector is among that item's
    [get_affectors]. *)
Theorem get_affectees_are_affected history svc a x :
  kept_in_step current_self history svc →
  a ∈ registered history.*2 →
  x ∈ (get_affectees current_self svc (run current_self history) a).1 →
  x ∈ __affectee (run current_self history)
  ∧ a ∈ get_affectors (run current_self history) x.
Proof.
  intros Hstep. apply affectees_affected.
  - apply invariant_run.
  - apply (located_kept_in_step history svc ∅ init svc).
    + apply invariant_init.
    + apply located_init.
    + exact Hstep.
Qed.

End agreement_in_step.

(** ** The boundary of the RAH simulator *)

Section rah_boundary.
Import Stdlib.QArith.QArith.
Import RahSim.
Variable Exception : Type.
Variable simulate : Resonances → Rah → Exception + Resonances.

(** C7: whenever the simulation raises, exactly one warning with the
    fixed message is logged, the module keeps its unsimulated resonances,
    and the ship's resonances are its base resonances multiplied by the
    unsimulated ones: (0.5, 0.65, 0.75, 0.9) and 0.85 give
    (0.425, 0.5525, 0.6375, 0.765). *)
Theorem simulator_exception_keeps_unsimulated ship rah e :
  simulate ship rah = inl e →
  rah_resonances Exception simulate ship rah
  = (unsimulated rah,
     [{| sim_levelno := WARNING;
         sim_msg := "unexpected exception, setting unsimulated resonances"
       |}])
  ∧ ship_resonances Exception simulate ship rah
    = res_mul ship (unsimulated rah)
  ∧ (ship = scenario_ship →
     unsimulated rah = unsimulated scenario_rah →
     res_eq (ship_resonances Exception simulate ship rah)
       {| em := 0.425; thermal := 0.5525; kinetic := 0.6375;
          explosive := 0.765 |}).
Proof.
  intros He.
  assert (rah_resonances Exception simulate ship rah
          = (unsimulated rah,
             [{| sim_levelno := WARNING;
                 sim_msg :=
                   "unexpected exception, setting unsimulated resonances"
               |}])) as Hr.
  { unfold rah_resonances. by rewrite He. }
  assert (ship_resonances Exception simulate ship rah
          = res_mul ship (unsimulated rah)) as Hs.
  { unfold ship_resonances. by rewrite Hr. }
  split; [done|]. split; [done|].
  intros -> Hu. rewrite Hs, Hu.
  unfold res_eq, res_mul, scenario_ship, scenario_rah; simpl.
  repeat split; reflexivity.
Qed.

End rah_boundary.

(** ** The effect builder *)

Section effect_builder.
Import InfoBuilder.
Variables Tree Payload : Type.
Variable parse : Tree → list Payload * EffectBuildStatus.t.

(** C8: the modifiers built from an effect carry the state and the
    context of the effect's category: passive (offline, local), online
    (online, local), system (offline, local), active (active, local),
    target (active, projected), overload (overload, local); for area and
    dungeon the status is [error] and no modifier is emitted. *)
Theorem build_by_category (effect : Effect Tree) :
  let infos := (build Tree Payload parse effect).1 in
  let carry (st : State.t) (ctx : Context.t) :=
    ∀ info : Info Payload, info ∈ infos → state _ info = st ∧ context _ info = ctx in
  (category _ effect = EffectCategory.passive →
   carry State.offline Context.local)
  ∧ (category _ effect = EffectCategory.online →
     carry State.online Context.local)
  ∧ (category _ effect = EffectCategory.system →
     carry State.offline Context.local)
  ∧ (category _ effect = EffectCategory.active →
     carry State.active Context.local)
  ∧ (category _ effect = EffectCategory.target →
     carry State.active Context.projected)
  ∧ (category _ effect = EffectCategory.overload →
     carry State.overload Context.local)
  ∧ (category _ effect = EffectCategory.area
     ∨ category _ effect = EffectCategory.dungeon →
     build Tree Payload parse effect = ([], EffectBuildStatus.error)).
Proof.
  simpl. unfold build.
  split_and!; try (intros [-> | ->]; done);
    intros -> info; simpl; destruct (parse _) as [payloads status]; simpl;
    intros (p & -> & _)%list_elem_of_fmap; done.
Qed.

End effect_builder.

(** ** The properties on the small fit *)

(** Decide a closed proposition by evaluation. *)
Ltac evaluate := apply (bool_decide_unpack _); vm_compute; exact I.

Section on_the_small_fit.
Import Fixture.

(** The ship is unregistered, then replaced by a second ship: once that
    one is registered it is the affectee of [to_ship], and [to_ship] is
    among its affectors. *)
Lemma get_affectees_are_affected_witness :
  Swaps.ship2 ∈ __affectee (run current_self Swaps.swapped_in_order)
  ∧ to_ship ∈ get_affectors (run current_self Swaps.swapped_in_order)
                Swaps.ship2.
Proof.
  apply (get_affectees_are_affected current_self Swaps.swapped_in_order
           Swaps.svc_swapped to_ship Swaps.ship2).
  - unfold kept_in_step, Swaps.swapped_in_order. simpl.
    repeat split; evaluate.
  - evaluate.
  - evaluate.
Defined.

(** The ship is replaced while it is still registered: the second ship is
    an affectee of [to_ship], yet [to_ship] is not among its affectors. *)
Lemma get_affectees_swap_counterexample :
  to_ship ∈ registered Swaps.swapped_in_place.*2
  ∧ Swaps.ship2
    ∈ (get_affectees current_self Swaps.svc_swapped
         (run current_self Swaps.swapped_in_place) to_ship).1
  ∧ ¬ (Swaps.ship2 ∈ __affectee (run current_self Swaps.swapped_in_place)
       ∧ to_ship
         ∈ get_affectors (run current_self Swaps.swapped_in_place)
             Swaps.ship2).
Proof.
  split; [evaluate|]. split; [evaluate|].
  intros [_ Hin]. revert Hin. evaluate.
Qed.

(** The modifier with [tgt_domain=1972] is dropped with one warning. *)
Lemma register_affector_malformed_witness :
  ∃ record,
    register_affector current_self svc loaded bad_domain = (loaded, [record])
    ∧ levelno record = WARNING
    ∧ msg_type_id record = 300.
Proof.
  destruct (register_affector_malformed current_self svc loaded bad_domain)
    as [Hdropped _].
  destruct Hdropped as (record & Hreg & Hlevel & Hid & _).
  - vm_compute. reflexivity.
  - exists record. split; [exact Hreg|]. split; [exact Hlevel|exact Hid].
Defined.

(** The same domain 1972 with the [owner_skillrq] filter: nothing is
    logged, the affector is stored, and once the charge is registered the
    affector is among the charge's affectors. *)
Lemma register_affector_owner_skillrq_counterexample :
  tgt_filter (modifier Swaps.owner_bad_domain) = ModTgtFilter.owner_skillrq
  ∧ tgt_domain (modifier Swaps.owner_bad_domain) = ModDomain.unknown 1972
  ∧ (register_affector current_self svc init Swaps.owner_bad_domain).2 = []
  ∧ affector_in
      (register_affector current_self svc init Swaps.owner_bad_domain).1
      (in_affector_owner_skillrq (Some 3300)) Swaps.owner_bad_domain
  ∧ (register_affector current_self svc init Swaps.owner_bad_domain).1
    ≠ init
  ∧ Swaps.owner_bad_domain
    ∈ get_affectors
        (register_affectee svc
           (register_affector current_self svc init
              Swaps.owner_bad_domain).1 charge)
        charge.
Proof.
  split; [reflexivity|]. split; [reflexivity|]. split; [reflexivity|].
  split; [unfold affector_in; evaluate|].
  split; [evaluate|evaluate].
Qed.

(** Unregistering the module: [to_self] goes back to the awaitable index,
    [from_charge] stays in the 'other' index of the charge only. *)
Lemma unregister_affectee_deactivates_witness :
  to_self ∈ KeyedStorage.get (__affector_item_active loaded) module
  ∧ from_charge ∈ KeyedStorage.get (__affector_item_active loaded) module
  ∧ __affector_item_active (unregister_affectee loaded module)
    = delete module (__affector_item_active loaded)
  ∧ __affector_item_other (unregister_affectee loaded module)
    = __affector_item_other loaded
  ∧ to_self
    ∈ KeyedStorage.get
        (__affector_item_awaitable (unregister_affectee loaded module)) module
  ∧ ∀ s,
      affector_in (unregister_affectee loaded module) s from_charge →
      affector_in loaded s from_charge.
Proof.
  assert (module ∈ __affectee loaded) as Hin
    by (evaluate).
  assert (to_self ∈ KeyedStorage.get (__affector_item_active loaded) module)
    as Hself by (evaluate).
  assert (from_charge
            ∈ KeyedStorage.get (__affector_item_active loaded) module)
    as Hcharge by (evaluate).
  destruct (unregister_affectee_deactivates loaded module Hin)
    as (Hactive & Hother & Heach).
  split; [exact Hself|]. split; [exact Hcharge|].
  split; [exact Hactive|]. split; [exact Hother|]. split.
  - apply (Heach to_self Hself).
    evaluate.
  - apply (Heach from_charge Hcharge). reflexivity.
Defined.

(** The ship is added to the loaded fit and removed again. *)
Lemma register_unregister_affectee_roundtrip_witness :
  unregister_affectee (register_affectee svc loaded ship) ship = loaded.
Proof.
  apply (register_unregister_affectee_roundtrip current_self
           (steady svc loaded_calls) svc ship).
  evaluate.
Defined.

(** A group modifier with domain [self] carried by the module, which is
    neither the ship nor the character, is rejected. *)
Lemma self_domain_contextized_by_filter_witness :
  register_affector current_self svc loaded group_self
  = (loaded,
     [logger_warning (unsupported_target_domain 300 ModDomain.self)]).
Proof.
  destruct (self_domain_contextized_by_filter current_self svc loaded
              group_self) as [Hbroadcast _].
  destruct Hbroadcast as (_ & _ & Hreject).
  - evaluate.
  - reflexivity.
  - apply Hreject.
    + evaluate.
    + evaluate.
Defined.

(** The same modifier with the [owner_skillrq] filter is not rejected:
    nothing is logged and the affector is stored. *)
Lemma self_domain_owner_skillrq_counterexample :
  tgt_filter (modifier to_owner_skill)
    ∈ [ModTgtFilter.domain; ModTgtFilter.domain_group;
       ModTgtFilter.domain_skillrq; ModTgtFilter.owner_skillrq]
  ∧ tgt_domain (modifier to_owner_skill) = ModDomain.self
  ∧ _current_ship svc ≠ Some (carrier_item to_owner_skill)
  ∧ _current_char svc ≠ Some (carrier_item to_owner_skill)
  ∧ (register_affector current_self svc init to_owner_skill).2 = []
  ∧ affector_in (register_affector current_self svc init to_owner_skill).1
      (in_affector_owner_skillrq (Some 3300)) to_owner_skill
  ∧ ¬ self_domain_contextized current_self svc init to_owner_skill.
Proof.
  split; [evaluate|].
  split; [reflexivity|].
  split; [evaluate|].
  split; [evaluate|].
  split; [reflexivity|].
  split; [unfold affector_in; evaluate|].
  intros (_ & _ & Hreject).
  assert ((register_affector current_self svc init to_owner_skill).2
          = [logger_warning (unsupported_target_domain 300 ModDomain.self)])
    as Hlog.
  { rewrite Hreject; [reflexivity|..];
      evaluate. }
  discriminate Hlog.
Qed.

(** A group modifier with domain [other]. *)
Lemma broadcast_other_rejected_witness :
  register_affector current_self svc loaded group_other
  = (loaded,
     [logger_warning (unsupported_target_domain 300 ModDomain.other)])
  ∧ get_affectees current_self svc loaded group_other
    = (∅, [logger_warning (unsupported_target_domain 300 ModDomain.other)]).
Proof.
  destruct (broadcast_other_rejected current_self svc loaded group_other)
    as (Hreg & Hget & _).
  - evaluate.
  - reflexivity.
  - split; [exact Hreg|exact Hget].
Defined.

(** The ship is not registered in the loaded fit. *)
Lemma get_affectors_unregistered_witness :
  get_affectors loaded ship = ∅.
Proof.
  apply get_affectors_unregistered.
  evaluate.
Defined.

End on_the_small_fit.

Section on_the_scenarios.
Import Stdlib.QArith.QArith.
Import RahSim.

(** The scenario with [cycle_time = 0]. *)
Lemma simulator_exception_keeps_unsimulated_witness :
  rah_resonances unit dividing_engine scenario_ship scenario_rah
  = (unsimulated scenario_rah,
     [{| sim_levelno := WARNING;
         sim_msg := "unexpected exception, setting unsimulated resonances"
       |}])
  ∧ res_eq (ship_resonances unit dividing_engine scenario_ship scenario_rah)
      {| em := 0.425; thermal := 0.5525; kinetic := 0.6375;
         explosive := 0.765 |}.
Proof.
  destruct (simulator_exception_keeps_unsimulated unit dividing_engine
              scenario_ship scenario_rah tt) as (Hrah & _ & Hship).
  - reflexivity.
  - split; [exact Hrah|]. apply Hship; reflexivity.
Defined.

(** A target effect with two modifiers. *)
Lemma build_by_category_witness :
  Forall
    (λ info,
       InfoBuilder.state _ info = State.active
       ∧ InfoBuilder.context _ info = Context.projected)
    (InfoBuilder.build (list nat) nat Fixture.parse_all
       {| InfoBuilder.category := EffectCategory.target;
          InfoBuilder.expressions := [1%nat; 2%nat] |}).1.
Proof.
  apply Forall_forall.
  destruct (build_by_category (list nat) nat Fixture.parse_all
              {| InfoBuilder.category := EffectCategory.target;
                 InfoBuilder.expressions := [1%nat; 2%nat] |})
    as (_ & _ & _ & _ & Htarget & _).
  apply Htarget. reflexivity.
Defined.

End on_the_scenarios.

(** ** The affector indices hold exactly the registered affectors *)

Section exact_indices.
Import KeyedStorage KeyedStorageFacts.
Variable current_self : Z.
Variable svc : CalcSvc.
Implicit Types (r : AffectionRegister) (a b : Affector) (x y k : Item).
Implicit Types (R : gset Affector).

Lemma storages_placed r a l s :
  __get_affector_storages current_self svc r a = Return l →
  s ∈ l ↔ placed svc (__affectee r) a l s.
Proof.
  intros Hl.
  destruct (decide (tgt_filter (modifier a) = ModTgtFilter.item)) as [Hf|Hf].
  - destruct (storages_item_domain _ _ _ _ _ Hf Hl) as [Hd|Hd].
    + rewrite (storages_direct _ _ _ _ Hf Hd) in Hl. injection Hl as <-.
      assert (tgt_domain (modifier a) ≠ ModDomain.other) as Hno.
      { unfold demotable in Hd. intros Ho. rewrite Ho in Hd. set_solver. }
      destruct (direct_target svc a) as [t|] eqn:Et.
      * destruct (decide (t ∈ __affectee r)) as [Ht|Ht];
          rewrite list_elem_of_singleton; destruct s; simpl;
          split; try done; try naive_solver.
      * rewrite list_elem_of_singleton; destruct s; simpl;
          split; try done; try naive_solver.
    + rewrite (storages_other _ _ _ _ Hf Hd) in Hl. injection Hl as <-.
      assert (¬ demotable a) as Hno.
      { unfold demotable. rewrite Hd. set_solver. }
      rewrite elem_of_cons, list_elem_of_fmap.
      destruct s; simpl; split; try done; try naive_solver.
      * intros [?|(o & [= ->] & Ho%elem_of_elements)]; [done|]. set_solver.
      * intros (_ & Hk & [[? _]|[_ Ho]]); [done|]. right.
        exists k. split; [done|]. apply elem_of_elements. set_solver.
  - pose proof (storages_broadcast_kind _ _ _ _ _ s Hf Hl) as Hk.
    destruct s; simpl; split; try done; try naive_solver;
      intros Hs; destruct (Hk Hs); done.
Qed.

Lemma storages_return_indep r1 r2 a l :
  __get_affector_storages current_self svc r1 a = Return l →
  ∃ l', __get_affector_storages current_self svc r2 a = Return l'.
Proof.
  intros Hl.
  destruct (decide (tgt_filter (modifier a) = ModTgtFilter.item)) as [Hf|Hf].
  - destruct (storages_item_domain _ _ _ _ _ Hf Hl) as [Hd|Hd].
    + rewrite (storages_direct _ _ _ _ Hf Hd). eauto.
    + rewrite (storages_other _ _ _ _ Hf Hd). eauto.
  - rewrite (storages_broadcast _ _ r2 r1 a Hf). eauto.
Qed.

(** Moving an affector's placement from one set of registered items to
    another. *)

Lemma exact_transfer r r' a l s :
  __get_affector_storages current_self svc r a = Return l →
  (∀ l', __get_affector_storages current_self svc r' a = Return l' →
         placed svc (__affectee r') a l' s) →
  ∃ l', __get_affector_storages current_self svc r' a = Return l' ∧ s ∈ l'.
Proof.
  intros Hl Hp.
  destruct (storages_return_indep r r' a l Hl) as [l' Hl'].
  exists l'. split; [done|]. apply (storages_placed r' a l' s Hl'). auto.
Qed.

Lemma placed_broadcast r r' a l l' s :
  ¬ direct_storage s →
  __get_affector_storages current_self svc r a = Return l →
  __get_affector_storages current_self svc r' a = Return l' →
  placed svc (__affectee r) a l s →
  placed svc (__affectee r') a l' s.
Proof.
  intros Hk Hl Hl' Hp.
  destruct s; simpl in *; try (by destruct Hk);
    destruct Hp as [Hf Hs]; (split; [done|]);
    rewrite (storages_broadcast _ _ r' r a Hf) in Hl'; congruence.
Qed.

Lemma exact_init : exact current_self svc ∅ init.
Proof.
  intros s a Ha. destruct s; simpl in Ha; rewrite get_empty in Ha; set_solver.
Qed.

Lemma exact_register_affector R r b :
  exact current_self svc R r →
  exact current_self svc (R ∪ {[b]})
    (register_affector current_self svc r b).1.
Proof.
  intros HR s a.
  assert (__affectee (register_affector current_self svc r b).1
          = __affectee r) as He.
  { unfold register_affector. destruct (__get_affector_storages _ _ r b);
      simpl; [apply affector_fold_affectee|done]. }
  rewrite (storages_same_affectee _ _ _ r a He).
  unfold register_affector.
  destruct (__get_affector_storages _ _ r b) as [lb|e] eqn:Eb; simpl.
  - intros [Ha|[-> Hs]]%affector_in_add.
    + destruct (HR _ _ Ha) as [? ?]. split; [set_solver|done].
    + split; [set_solver|eauto].
  - intros Ha. destruct (HR _ _ Ha) as [? ?]. split; [set_solver|done].
Qed.

Lemma exact_unregister_affector R r b :
  exact current_self svc R r →
  exact current_self svc (R ∖ {[b]})
    (unregister_affector current_self svc r b).1.
Proof.
  intros HR s a.
  assert (__affectee (unregister_affector current_self svc r b).1
          = __affectee r) as He.
  { unfold unregister_affector. destruct (__get_affector_storages _ _ r b);
      simpl; [apply affector_fold_affectee|done]. }
  rewrite (storages_same_affectee _ _ _ r a He).
  unfold unregister_affector.
  destruct (__get_affector_storages _ _ r b) as [lb|e] eqn:Eb; simpl.
  - intros [Ha Hn]%affector_in_rm.
    destruct (HR _ _ Ha) as [HaR (l & Hl & Hs)].
    split; [|eauto].
    apply elem_of_difference. split; [done|].
    intros ->%elem_of_singleton. apply Hn. split; [done|]. congruence.
  - intros Ha. destruct (HR _ _ Ha) as [HaR (l & Hl & Hs)].
    split; [|eauto].
    apply elem_of_difference. split; [done|].
    intros ->%elem_of_singleton. congruence.
Qed.

Lemma exact_register_affectee R r x :
  invariant r →
  exact current_self svc R r →
  exact current_self svc R (register_affectee svc r x).
Proof.
  intros [Hwf He Hact Haw Hoth] HR s a Ha.
  apply register_affectee_affector_in in Ha.
  assert (∀ s0, affector_in r s0 a →
            a ∈ R
            ∧ ∃ l, __get_affector_storages current_self svc r a = Return l
                   ∧ placed svc (__affectee r) a l s0) as Hold.
  { intros s0 H0. destruct (HR _ _ H0) as [? (l & Hl & Hs)].
    split; [done|]. exists l. split; [done|].
    by apply (storages_placed r a l s0 Hl). }
  destruct s.
  - (* other *)
    destruct (Hold _ Ha) as [? (l & Hl & Hp)]. split; [done|].
    apply (exact_transfer r _ a l _ Hl). intros l' _. exact Hp.
  - (* awaitable *)
    destruct Ha as [Ha Hn].
    destruct (Hold (in_affector_item_awaitable k) Ha)
      as [? (l & Hl & Hf & Hd & -> & Ht)].
    split; [done|].
    apply (exact_transfer r _ a l _ Hl). intros l' _. simpl.
    split; [done|]. split; [done|]. split; [done|].
    intros t Et. rewrite register_affectee_affectee.
    intros [Hin| ->%elem_of_singleton]%elem_of_union; [by eapply Ht|].
    apply Hn. split; [|done].
    apply elem_of_collect. exists (carrier_item a).
    split; [done|]. by apply direct_awaits.
  - (* active *)
    destruct Ha as [Ha|[-> [Hp|Hr]]].
    + destruct (Hold (in_affector_item_active k) Ha)
        as [? (l & Hl & Hf & Hk & Hc)].
      split; [done|].
      apply (exact_transfer r _ a l _ Hl). intros l' _. simpl.
      rewrite register_affectee_affectee. split; [done|].
      split; [set_solver|done].
    + apply elem_of_collect in Hp as (k' & Hk' & Hw).
      destruct (Hold (in_affector_item_awaitable k') Hk')
        as [? (l & Hl & Hf & Hd & -> & Ht)].
      split; [done|].
      apply (exact_transfer r _ a l _ Hl). intros l' _. simpl.
      rewrite register_affectee_affectee. split; [done|].
      split; [set_solver|]. left. split; [done|].
      by apply awaits_direct.
    + apply elem_of_collect in Hr as (k' & Hk' & Hx%bool_decide_eq_true).
      destruct (Hold (in_affector_item_other k') Hk')
        as [? (l & Hl & Hf & Hd & ->)].
      split; [done|].
      apply (exact_transfer r _ a l _ Hl). intros l' _. simpl.
      rewrite register_affectee_affectee. split; [done|].
      split; [set_solver|]. by right.
  - destruct (Hold _ Ha) as [? (l & Hl & Hp)]. split; [done|].
    apply (exact_transfer r _ a l _ Hl). intros l' Hl'.
    apply (placed_broadcast r _ a l l'); [by intros []|done..].
  - destruct (Hold _ Ha) as [? (l & Hl & Hp)]. split; [done|].
    apply (exact_transfer r _ a l _ Hl). intros l' Hl'.
    apply (placed_broadcast r _ a l l'); [by intros []|done..].
  - destruct (Hold _ Ha) as [? (l & Hl & Hp)]. split; [done|].
    apply (exact_transfer r _ a l _ Hl). intros l' Hl'.
    apply (placed_broadcast r _ a l l'); [by intros []|done..].
  - destruct (Hold _ Ha) as [? (l & Hl & Hp)]. split; [done|].
    apply (exact_transfer r _ a l _ Hl). intros l' Hl'.
    apply (placed_broadcast r _ a l l'); [by intros []|done..].
Qed.

Lemma exact_unregister_affectee R r x :
  invariant r →
  exact current_self svc R r →
  exact current_self svc R (unregister_affectee r x).
Proof.
  intros [Hwf He Hact Haw Hoth] HR s a Ha.
  apply unregister_affectee_affector_in in Ha.
  assert (∀ s0, affector_in r s0 a →
            a ∈ R
            ∧ ∃ l, __get_affector_storages current_self svc r a = Return l
                   ∧ placed svc (__affectee r) a l s0) as Hold.
  { intros s0 H0. destruct (HR _ _ H0) as [? (l & Hl & Hs)].
    split; [done|]. exists l. split; [done|].
    by apply (storages_placed r a l s0 Hl). }
  destruct s.
  - destruct (Hold _ Ha) as [? (l & Hl & Hp)]. split; [done|].
    apply (exact_transfer r _ a l _ Hl). intros l' _. exact Hp.
  - (* awaitable *)
    destruct Ha as [Ha|(Ha & Hd & <-)].
    + destruct (Hold (in_affector_item_awaitable k) Ha)
        as [? (l & Hl & Hf & Hd & -> & Ht)].
      split; [done|].
      apply (exact_transfer r _ a l _ Hl). intros l' _. simpl.
      split; [done|]. split; [done|]. split; [done|].
      intros t Et. rewrite unregister_affectee_affectee.
      intros [Hin _]%elem_of_difference. by eapply Ht.
    + destruct (Hold (in_affector_item_active x) Ha)
        as [? (l & Hl & Hf & Hk & Hc)].
      split; [done|].
      apply (exact_transfer r _ a l _ Hl). intros l' _. simpl.
      split; [done|]. split; [done|]. split; [done|].
      intros t Et. rewrite unregister_affectee_affectee.
      destruct Hc as [[_ Hx]|[Ho _]].
      * assert (t = x) as -> by congruence. set_solver.
      * unfold demotable in Hd. rewrite Ho in Hd. set_solver.
  - (* active *)
    destruct Ha as [Ha Hne].
    destruct (Hold (in_affector_item_active k) Ha)
      as [? (l & Hl & Hf & Hk & Hc)].
    split; [done|].
    apply (exact_transfer r _ a l _ Hl). intros l' _. simpl.
    rewrite unregister_affectee_affectee. split; [done|].
    split; [set_solver|done].
  - destruct (Hold _ Ha) as [? (l & Hl & Hp)]. split; [done|].
    apply (exact_transfer r _ a l _ Hl). intros l' Hl'.
    apply (placed_broadcast r _ a l l'); [by intros []|done..].
  - destruct (Hold _ Ha) as [? (l & Hl & Hp)]. split; [done|].
    apply (exact_transfer r _ a l _ Hl). intros l' Hl'.
    apply (placed_broadcast r _ a l l'); [by intros []|done..].
  - destruct (Hold _ Ha) as [? (l & Hl & Hp)]. split; [done|].
    apply (exact_transfer r _ a l _ Hl). intros l' Hl'.
    apply (placed_broadcast r _ a l l'); [by intros []|done..].
  - destruct (Hold _ Ha) as [? (l & Hl & Hp)]. split; [done|].
    apply (exact_transfer r _ a l _ Hl). intros l' Hl'.
    apply (placed_broadcast r _ a l l'); [by intros []|done..].
Qed.

Lemma exact_run calls :
  exact current_self svc (registered calls)
    (run current_self (steady svc calls)).
Proof.
  induction calls as [|c calls IH] using rev_ind.
  - apply exact_init.
  - unfold steady. rewrite fmap_app. simpl. rewrite run_snoc, registered_snoc.
    pose proof (invariant_run current_self (pair svc <$> calls)) as Hinv.
    destruct c; simpl.
    + by apply exact_register_affectee.
    + by apply exact_unregister_affectee.
    + by apply exact_register_affector.
    + by apply exact_unregister_affector.
Qed.

End exact_indices.

(** ** The affectee maps hold exactly the registered items *)

Section complete_affectees.
Import KeyedStorage KeyedStorageFacts.
Variable current_self : Z.
Implicit Types (r : AffectionRegister) (a b : Affector) (x y k : Item).

Lemma affectee_complete_init : affectee_complete init.
Proof. intros s x Hx. set_solver. Qed.

Lemma affectee_complete_call svc r c :
  affectee_complete r → affectee_complete (call current_self svc r c).
Proof.
  intros Hr s y. destruct c; simpl.
  - rewrite register_affectee_affectee, register_affectee_affectee_in.
    intros [Hy| ->%elem_of_singleton]%elem_of_union Hs; [|by right].
    left. by apply Hr.
  - rewrite unregister_affectee_affectee, unregister_affectee_affectee_in.
    intros [Hy Hne]%elem_of_difference Hs. split; [by apply Hr|].
    intros [-> _]. set_solver.
  - unfold register_affector.
    destruct (__get_affector_storages _ _ r affector); simpl; [|apply Hr].
    rewrite affector_fold_affectee, affector_fold_affectee_in. apply Hr.
  - unfold unregister_affector.
    destruct (__get_affector_storages _ _ r affector); simpl; [|apply Hr].
    rewrite affector_fold_affectee, affector_fold_affectee_in. apply Hr.
Qed.

Lemma affectee_complete_run history :
  affectee_complete (run current_self history).
Proof.
  induction history as [|[svc c] history IH] using rev_ind.
  - apply affectee_complete_init.
  - rewrite run_snoc. by apply affectee_complete_call.
Qed.

Lemma affectee_in_run history s x :
  affectee_in (run current_self history) s x
  ↔ x ∈ __affectee (run current_self history)
    ∧ s ∈ __get_affectee_storages x.
Proof.
  split.
  - apply invariant_run.
  - intros [Hx Hs]. by apply affectee_complete_run.
Qed.

(** X2: after any history of calls, an item is in an affectee map under a
    key exactly when it is registered and its own domain, group and skill
    requirements give that key. *)
Theorem affectee_indices_exact history s x :
  affectee_in (run current_self history) s x
  ↔ x ∈ __affectee (run current_self history)
    ∧ s ∈ __get_affectee_storages x.
Proof. apply affectee_in_run. Qed.

(** X15: after any history of calls no index binds a key to an empty
    set, the affectee maps hold registered items only, the active index is
    keyed on registered items, every awaitable affector is keyed on its
    carrier and targets [self], [character] or [ship], and the 'other'
    index holds affectors with target domain [other] only. *)
Theorem register_invariants_hold history :
  invariant (run current_self history).
Proof. apply invariant_run. Qed.

(** X12: after any history of calls, unregistering an item which is not
    registered changes nothing. *)
Theorem unregister_affectee_absent history x :
  x ∉ __affectee (run current_self history) →
  unregister_affectee (run current_self history) x
  = run current_self history.
Proof.
  pose proof (invariant_run current_self history) as Hinv.
  revert Hinv. generalize (run current_self history). clear history.
  intros r [Hwf He Hact Haw Hoth] Hx.
  apply register_ext.
  - by apply unregister_affectee_wf.
  - done.
  - rewrite unregister_affectee_affectee. set_solver.
  - intros s y. rewrite unregister_affectee_affectee_in.
    split; [by intros [? _]|]. intros Hy. split; [done|].
    intros [-> _]. destruct (He _ _ Hy). done.
  - intros s a. rewrite unregister_affectee_affector_in.
    destruct s; try done.
    + split; [|by left].
      intros [?|(Ha & _)]; [done|].
      destruct Hx. apply Hact. by eapply get_nonempty_is_Some.
    + split; [by intros [? _]|]. intros Ha. split; [done|].
      intros ->. apply Hx, Hact. by eapply get_nonempty_is_Some.
Qed.

(** X14: after any history of calls, whatever affector is asked about,
    registered or not, [get_affectees] returns registered items only. *)
Theorem get_affectees_registered history svc a x :
  x ∈ (get_affectees current_self svc (run current_self history) a).1 →
  x ∈ __affectee (run current_self history).
Proof.
  pose proof (invariant_run current_self history) as Hinv.
  revert Hinv. generalize (run current_self history). clear history.
  intros r [Hwf He Hact Haw Hoth].
  unfold get_affectees, __get_affectees_item, __get_affectees_domain,
    __get_affectees_domain_group, __get_affectees_domain_skillrq,
    __get_affectees_owner_skillrq, __get_affectees_item_self,
    __get_affectees_item_character, __get_affectees_item_ship,
    __get_affectees_item_other, __get_registered_affectees.
  destruct (tgt_filter (modifier a)); simpl.
  - destruct (tgt_domain (modifier a)); simpl; repeat case_match; set_solver.
  - destruct (__contextize_tgt_filter_domain svc a) as [d|]; simpl;
      [|set_solver].
    intros Hx. by destruct (He (in_affectee_domain d) x Hx).
  - destruct (__contextize_tgt_filter_domain svc a) as [d|]; simpl;
      [|set_solver].
    intros Hx. by destruct (He (in_affectee_domain_group _) x Hx).
  - destruct (__contextize_tgt_filter_domain svc a) as [d|]; simpl;
      [|set_solver].
    intros Hx. by destruct (He (in_affectee_domain_skillrq _) x Hx).
  - intros Hx. by destruct (He (in_affectee_owner_skillrq _) x Hx).
  - set_solver.
Qed.

End complete_affectees.

(** ** The register of a steady fit *)

Section steady_fit.
Import KeyedStorage KeyedStorageFacts.
Variable current_self : Z.
Variable svc : CalcSvc.
Implicit Types (r : AffectionRegister) (a b : Affector) (x y k : Item).
Implicit Types (calls : list Call).

Lemma run_steady_snoc calls c :
  run current_self (steady svc (calls ++ [c]))
  = call current_self svc (run current_self (steady svc calls)) c.
Proof. unfold steady. rewrite fmap_app. apply run_snoc. Qed.

Lemma affector_in_steady calls s a :
  affector_in (run current_self (steady svc calls)) s a
  ↔ a ∈ registered calls
    ∧ ∃ storages,
        __get_affector_storages current_self svc
          (run current_self (steady svc calls)) a = Return storages
        ∧ s ∈ storages.
Proof.
  split.
  - apply exact_run.
  - intros (Ha & l & Hl & Hs). by eapply located_run.
Qed.

(** The register of a steady fit is determined by its registered items
    and affectors. *)

Lemma run_determined calls1 calls2 :
  registered calls1 = registered calls2 →
  __affectee (run current_self (steady svc calls1))
  = __affectee (run current_self (steady svc calls2)) →
  run current_self (steady svc calls1) = run current_self (steady svc calls2).
Proof.
  intros HR HA. apply register_ext.
  - apply invariant_run.
  - apply invariant_run.
  - done.
  - intros s x.
    rewrite (affectee_in_run current_self (steady svc calls1)).
    rewrite (affectee_in_run current_self (steady svc calls2)).
    by rewrite HA.
  - intros s a. rewrite !affector_in_steady, HR.
    by rewrite (storages_same_affectee current_self svc _ _ a HA).
Qed.

(** X1: while the fit keeps its ship, character and [_others], after any
    history of calls an affector is in an affector index under a key
    exactly when it has been registered and not since unregistered and
    that index and key are among the storages the register now computes
    for it. *)
Theorem affector_indices_exact calls s a :
  affector_in (run current_self (steady svc calls)) s a
  ↔ a ∈ registered calls
    ∧ ∃ storages,
        __get_affector_storages current_self svc
          (run current_self (steady svc calls)) a = Return storages
        ∧ s ∈ storages.
Proof. apply affector_in_steady. Qed.

(** X3: while the fit keeps its ship, character and [_others], two
    histories which leave the same items and the same affectors
    registered leave the same register, whatever the order of their
    calls. *)
Theorem register_order_independent calls1 calls2 :
  registered calls1 = registered calls2 →
  __affectee (run current_self (steady svc calls1))
  = __affectee (run current_self (steady svc calls2)) →
  run current_self (steady svc calls1) = run current_self (steady svc calls2).
Proof. apply run_determined. Qed.

(** X4: on a steady fit, once every affector and every item has been
    unregistered again, the register is the empty register it started
    as. *)
Theorem register_empty_again calls :
  registered calls = ∅ →
  __affectee (run current_self (steady svc calls)) = ∅ →
  run current_self (steady svc calls) = init.
Proof.
  intros HR HA. apply (run_determined calls []); done.
Qed.

(** X8: on a steady fit, registering an affector which is not registered
    and unregistering it at once leaves the register as it was. *)
Theorem register_unregister_affector_roundtrip calls a :
  a ∉ registered calls →
  (unregister_affector current_self svc
     (register_affector current_self svc
        (run current_self (steady svc calls)) a).1 a).1
  = run current_self (steady svc calls).
Proof.
  intros Ha.
  pose proof (run_determined
                ((calls ++ [call_register_affector a])
                 ++ [call_unregister_affector a]) calls) as Hd.
  rewrite !run_steady_snoc in Hd. simpl in Hd. apply Hd.
  - rewrite !registered_snoc. set_solver.
  - unfold unregister_affector, register_affector.
    repeat (destruct (__get_affector_storages _ _ _ _); simpl);
      by rewrite ?affector_fold_affectee.
Qed.

(** X9: on a steady fit, unregistering an affector which is not
    registered changes nothing. *)
Theorem unregister_affector_absent calls a :
  a ∉ registered calls →
  (unregister_affector current_self svc
     (run current_self (steady svc calls)) a).1
  = run current_self (steady svc calls).
Proof.
  intros Ha.
  pose proof (run_determined (calls ++ [call_unregister_affector a]) calls)
    as Hd.
  rewrite !run_steady_snoc in Hd. simpl in Hd. apply Hd.
  - rewrite !registered_snoc. set_solver.
  - unfold unregister_affector.
    destruct (__get_affector_storages _ _ _ _); simpl;
      by rewrite ?affector_fold_affectee.
Qed.

(** X10: on a steady fit, registering an affector twice is registering it
    once. *)
Theorem register_affector_idempotent calls a :
  (register_affector current_self svc
     (register_affector current_self svc
        (run current_self (steady svc calls)) a).1 a).1
  = (register_affector current_self svc
       (run current_self (steady svc calls)) a).1.
Proof.
  pose proof (run_determined
                ((calls ++ [call_register_affector a])
                 ++ [call_register_affector a])
                (calls ++ [call_register_affector a])) as Hd.
  rewrite !run_steady_snoc in Hd. simpl in Hd. apply Hd.
  - rewrite !registered_snoc. set_solver.
  - unfold register_affector.
    repeat (destruct (__get_affector_storages _ _ _ _); simpl);
      by rewrite ?affector_fold_affectee.
Qed.

(** X11: on a steady fit, registering an item twice is registering it
    once. *)
Theorem register_affectee_idempotent calls x :
  register_affectee svc
    (register_affectee svc (run current_self (steady svc calls)) x) x
  = register_affectee svc (run current_self (steady svc calls)) x.
Proof.
  pose proof (run_determined
                ((calls ++ [call_register_affectee x])
                 ++ [call_register_affectee x])
                (calls ++ [call_register_affectee x])) as Hd.
  rewrite !run_steady_snoc in Hd. simpl in Hd. apply Hd.
  - by rewrite !registered_snoc.
  - rewrite !register_affectee_affectee. set_solver.
Qed.

(** X13: on a steady fit, unregistering a registered item and registering
    it again at once leaves the register as it was. *)
Theorem unregister_register_affectee_roundtrip calls x :
  x ∈ __affectee (run current_self (steady svc calls)) →
  register_affectee svc
    (unregister_affectee (run current_self (steady svc calls)) x) x
  = run current_self (steady svc calls).
Proof.
  intros Hx.
  pose proof (run_determined
                ((calls ++ [call_unregister_affectee x])
                 ++ [call_register_affectee x]) calls) as Hd.
  rewrite !run_steady_snoc in Hd. simpl in Hd. apply Hd.
  - by rewrite !registered_snoc.
  - rewrite register_affectee_affectee, unregister_affectee_affectee.
    apply set_eq. intros y. rewrite elem_of_union, elem_of_difference,
      elem_of_singleton.
    destruct (decide (y = x)) as [->|]; naive_solver.
Qed.

End steady_fit.

(** ** Affectors of an item, read back *)

Section read_back.
Import KeyedStorage KeyedStorageFacts.
Variable current_self : Z.
Variable svc : CalcSvc.
Implicit Types (r : AffectionRegister) (a b : Affector) (x y k : Item).
Implicit Types (calls : list Call).

Lemma affector_in_placed calls s a l :
  a ∈ registered calls →
  __get_affector_storages current_self svc
    (run current_self (steady svc calls)) a = Return l →
  affector_in (run current_self (steady svc calls)) s a
  ↔ placed svc (__affectee (run current_self (steady svc calls))) a l s.
Proof.
  intros Ha Hl. rewrite affector_in_steady.
  rewrite <- (storages_placed _ _ _ _ _ _ Hl). split.
  - intros (_ & l' & Hl' & Hs). congruence.
  - eauto.
Qed.

Lemma broadcast_storages_inv r a l s :
  __get_affector_storages current_self svc r a = Return l →
  s ∈ l →
  match s with
  | in_affector_domain d =>
      tgt_filter (modifier a) = ModTgtFilter.domain
      ∧ __contextize_tgt_filter_domain svc a = Return d
  | in_affector_domain_group (d, g) =>
      tgt_filter (modifier a) = ModTgtFilter.domain_group
      ∧ __contextize_tgt_filter_domain svc a = Return d
      ∧ g = tgt_filter_extra_arg (modifier a)
  | in_affector_domain_skillrq (d, sk) =>
      tgt_filter (modifier a) = ModTgtFilter.domain_skillrq
      ∧ __contextize_tgt_filter_domain svc a = Return d
      ∧ sk = skill_type_id_of current_self a
  | in_affector_owner_skillrq sk =>
      tgt_filter (modifier a) = ModTgtFilter.owner_skillrq
      ∧ sk = skill_type_id_of current_self a
  | _ => True
  end.
Proof.
  intros Hl Hs.
  destruct (decide (tgt_filter (modifier a) = ModTgtFilter.item)) as [Hf|Hf].
  { apply (storages_placed _ _ _ _ _ _ Hl) in Hs.
    destruct s; try done; by destruct Hs. }
  revert Hl.
  unfold __get_affector_storages, __get_affector_storages_domain,
    __get_affector_storages_domain_group,
    __get_affector_storages_domain_skillrq,
    __get_affector_storages_owner_skillrq.
  destruct (tgt_filter (modifier a)); try done;
    destruct (__contextize_tgt_filter_domain svc a); simpl; try done;
    intros [= <-]; apply list_elem_of_singleton in Hs as ->; done.
Qed.

Lemma affectee_storages_intro x :
  (∀ d, _modifier_domain x = Some d →
        in_affectee_domain d ∈ __get_affectee_storages x)
  ∧ (∀ d g, _modifier_domain x = Some d → group_id x = Some g →
        in_affectee_domain_group (d, Some g) ∈ __get_affectee_storages x)
  ∧ (∀ d z, _modifier_domain x = Some d → z ∈ required_skills x →
        in_affectee_domain_skillrq (d, Some z) ∈ __get_affectee_storages x)
  ∧ (∀ z, _owner_modifiable x = true → z ∈ required_skills x →
        in_affectee_owner_skillrq (Some z) ∈ __get_affectee_storages x).
Proof.
  unfold __get_affectee_storages. split_and!.
  - intros d ->. set_solver.
  - intros d g -> ->. set_solver.
  - intros d z -> Hz. apply elem_of_app. left.
    rewrite !elem_of_app. right. right.
    apply list_elem_of_fmap. eauto.
  - intros z -> Hz. apply elem_of_app. right.
    apply list_elem_of_fmap. eauto.
Qed.

Lemma get_affectors_elem r x a :
  a ∈ get_affectors r x →
  x ∈ __affectee r
  ∧ (affector_in r (in_affector_item_active x) a
     ∨ (∃ d, _modifier_domain x = Some d
             ∧ (affector_in r (in_affector_domain d) a
                ∨ affector_in r (in_affector_domain_group (d, group_id x)) a
                ∨ ∃ z, z ∈ required_skills x
                       ∧ affector_in r
                           (in_affector_domain_skillrq (d, Some z)) a))
     ∨ (_owner_modifiable x = true
        ∧ ∃ z, z ∈ required_skills x
               ∧ affector_in r (in_affector_owner_skillrq (Some z)) a)).
Proof.
  unfold get_affectors. case_decide as Hx; [|set_solver].
  intros Ha. split; [done|].
  apply elem_of_union in Ha as [Ha|Ha];
    [apply elem_of_union in Ha as [Ha|Ha]|].
  - by left.
  - right. left. destruct (_modifier_domain x) as [d|]; [|set_solver].
    exists d. split; [done|].
    apply elem_of_union in Ha as [Ha|Ha];
      [apply elem_of_union in Ha as [Ha|Ha]|]; [by left|by right; left|].
    right. right.
    apply elem_of_union_list in Ha as (X & HX & Ha).
    apply list_elem_of_fmap in HX as (z & -> & Hz). eauto.
  - right. right. destruct (_owner_modifiable x); [|set_solver].
    split; [done|].
    apply elem_of_union_list in Ha as (X & HX & Ha).
    apply list_elem_of_fmap in HX as (z & -> & Hz). eauto.
Qed.

(** X5: while the fit keeps its ship, character and [_others], every
    affector [get_affectors] returns for an item has been registered and
    not since unregistered, and the item is among that affector's
    [get_affectees].  The one exception is a [domain_group] modifier
    without group argument met by an item whose type has no group:
    [get_affectors] looks such an item up under the missing group,
    while the item itself is stored in no group map. *)
Theorem get_affectors_are_affecting calls a x :
  a ∈ get_affectors (run current_self (steady svc calls)) x →
  a ∈ registered calls
  ∧ (x ∈ (get_affectees current_self svc
            (run current_self (steady svc calls)) a).1
     ∨ (tgt_filter (modifier a) = ModTgtFilter.domain_group
        ∧ tgt_filter_extra_arg (modifier a) = None
        ∧ group_id x = None)).
Proof.
  pose proof (exact_run current_self svc calls) as Hex.
  pose proof (affectee_complete_run current_self (steady svc calls)) as Hco.
  revert Hex Hco. generalize (run current_self (steady svc calls)).
  intros r Hex Hco Ha.
  apply get_affectors_elem in Ha as [Hx Ha].
  destruct (affectee_storages_intro x) as (Sd & Sg & Ss & So).
  destruct Ha as [Ha|[(d & Hd & [Ha|[Ha|(z & Hz & Ha)]])|(Ho & z & Hz & Ha)]];
    destruct (Hex _ _ Ha) as [HR (l & Hl & Hs)]; (split; [done|]).
  - (* a direct affector *)
    left.
    apply (storages_placed _ _ _ _ _ _ Hl) in Hs as (Hf & _ & Hc).
    unfold get_affectees, __get_affectees_item. rewrite Hf.
    unfold __get_affectees_item_self, __get_affectees_item_character,
      __get_affectees_item_ship, __get_affectees_item_other,
      __get_registered_affectees.
    destruct Hc as [[Hdem Ht]|[Ho Hin]].
    + unfold direct_target in Ht. unfold demotable in Hdem.
      destruct (tgt_domain (modifier a)); simpl; try done.
      * injection Ht as <-. set_solver.
      * rewrite Ht. set_solver.
      * rewrite Ht. set_solver.
    + rewrite Ho. simpl. set_solver.
  - left. apply (broadcast_storages_inv _ _ _ _ Hl) in Hs as [Hf Hc].
    unfold get_affectees, __get_affectees_domain. rewrite Hf, Hc. simpl.
    apply (Hco (in_affectee_domain d)); auto.
  - apply (broadcast_storages_inv _ _ _ _ Hl) in Hs as (Hf & Hc & Hg).
    destruct (group_id x) as [g|] eqn:Eg.
    + left. unfold get_affectees, __get_affectees_domain_group.
      rewrite Hf, Hc, <- Hg. simpl.
      apply (Hco (in_affectee_domain_group (d, Some g))); auto.
    + right. auto.
  - left. apply (broadcast_storages_inv _ _ _ _ Hl) in Hs as (Hf & Hc & Hk).
    unfold get_affectees, __get_affectees_domain_skillrq.
    rewrite Hf, Hc, <- Hk. simpl.
    apply (Hco (in_affectee_domain_skillrq (d, Some z))); auto.
  - left. apply (broadcast_storages_inv _ _ _ _ Hl) in Hs as (Hf & Hk).
    unfold get_affectees, __get_affectees_owner_skillrq.
    rewrite Hf, <- Hk. simpl.
    apply (Hco (in_affectee_owner_skillrq (Some z))); auto.
Qed.

(** X6: while the fit keeps its ship, character and [_others], a
    registered affector which targets one item ([self], [character] or
    [ship] with the [item] filter) is either active or awaitable, never
    both: it is in the active index exactly under its target when the
    target is registered, in the awaitable index exactly under its
    carrier when it is not, and never in the 'other' index. *)
Theorem direct_affector_active_or_awaitable calls a :
  a ∈ registered calls →
  tgt_filter (modifier a) = ModTgtFilter.item →
  tgt_domain (modifier a)
    ∈ [ModDomain.ship; ModDomain.character; ModDomain.self] →
  let r := run current_self (steady svc calls) in
  ∀ k,
    (a ∈ get (__affector_item_active r) k
     ↔ direct_target svc a = Some k ∧ k ∈ __affectee r)
    ∧ (a ∈ get (__affector_item_awaitable r) k
       ↔ k = carrier_item a
         ∧ ∀ t, direct_target svc a = Some t → t ∉ __affectee r)
    ∧ a ∉ get (__affector_item_other r) k.
Proof.
  intros Ha Hf Hd r k.
  pose proof (storages_direct current_self svc r a Hf Hd) as Hl.
  assert (tgt_domain (modifier a) ≠ ModDomain.other) as Hno.
  { intros Ho. rewrite Ho in Hd. set_solver. }
  split; [|split].
  - etrans; [apply (affector_in_placed calls (in_affector_item_active k)
                      a _ Ha Hl)|].
    simpl. fold r. naive_solver.
  - etrans; [apply (affector_in_placed calls (in_affector_item_awaitable k)
                      a _ Ha Hl)|].
    simpl. fold r. naive_solver.
  - intros Hin.
    apply (affector_in_placed calls (in_affector_item_other k) a _ Ha Hl)
      in Hin.
    simpl in Hin. naive_solver.
Qed.

(** X7: while the fit keeps its ship, character and [_others], a
    registered affector with the [item] filter and target domain [other]
    is in the 'other' index under its carrier and nowhere else there, is
    active exactly on the registered items among its carrier's [_others],
    and is never awaitable. *)
Theorem other_affector_record_and_active calls a :
  a ∈ registered calls →
  tgt_filter (modifier a) = ModTgtFilter.item →
  tgt_domain (modifier a) = ModDomain.other →
  let r := run current_self (steady svc calls) in
  ∀ k,
    (a ∈ get (__affector_item_other r) k ↔ k = carrier_item a)
    ∧ (a ∈ get (__affector_item_active r) k
       ↔ k ∈ __affectee r ∧ k ∈ _others svc (carrier_item a))
    ∧ a ∉ get (__affector_item_awaitable r) k.
Proof.
  intros Ha Hf Hd r k.
  pose proof (storages_other current_self svc r a Hf Hd) as Hl.
  assert (¬ demotable a) as Hno.
  { unfold demotable. rewrite Hd. set_solver. }
  split; [|split].
  - etrans; [apply (affector_in_placed calls (in_affector_item_other k)
                      a _ Ha Hl)|].
    simpl. naive_solver.
  - etrans; [apply (affector_in_placed calls (in_affector_item_active k)
                      a _ Ha Hl)|].
    simpl. fold r. naive_solver.
  - intros Hin.
    apply (affector_in_placed calls (in_affector_item_awaitable k) a _ Ha Hl)
      in Hin.
    simpl in Hin. naive_solver.
Qed.

End read_back.

(** ** One way of reporting a malformed modifier *)

Section reporting.
Variable current_self : Z.
Variable svc : CalcSvc.
Implicit Types (r : AffectionRegister) (a : Affector).

(** X16: for every register and every affector, [register_affector],
    [unregister_affector] and [get_affectees] log the same records:
    exactly one warning when the modifier is rejected -- the
    invalid-filter warning for an unknown filter, the unsupported-domain
    warning for the [item] filter with an unknown domain or for a
    [domain], [domain_group] or [domain_skillrq] filter whose domain is
    not [character], [ship], or [self] on the current ship or character
    -- and nothing otherwise; with the [owner_skillrq] filter nothing is
    ever logged. *)
Theorem affector_errors_consistent r a :
  (unregister_affector current_self svc r a).2
  = (register_affector current_self svc r a).2
  ∧ (get_affectees current_self svc r a).2
    = (register_affector current_self svc r a).2
  ∧ (register_affector current_self svc r a).2
    = (if malformed svc a
       then
         [logger_warning
            match tgt_filter (modifier a) with
            | ModTgtFilter.unknown _ =>
                invalid_target_filter (_type_id (carrier_item a))
                  (tgt_filter (modifier a))
            | _ =>
                unsupported_target_domain (_type_id (carrier_item a))
                  (tgt_domain (modifier a))
            end]
       else [])
  ∧ (tgt_filter (modifier a) = ModTgtFilter.owner_skillrq →
     (register_affector current_self svc r a).2 = []).
Proof.
  assert ((register_affector current_self svc r a).2
          = (if malformed svc a
             then
               [logger_warning
                  match tgt_filter (modifier a) with
                  | ModTgtFilter.unknown _ =>
                      invalid_target_filter (_type_id (carrier_item a))
                        (tgt_filter (modifier a))
                  | _ =>
                      unsupported_target_domain (_type_id (carrier_item a))
                        (tgt_domain (modifier a))
                  end]
             else [])
          ∧ (unregister_affector current_self svc r a).2
            = (register_affector current_self svc r a).2
          ∧ (get_affectees current_self svc r a).2
            = (register_affector current_self svc r a).2) as (Hlog & Hun & Hget).
  { destruct (malformed svc a) eqn:Hm.
    - unfold register_affector, unregister_affector.
      rewrite (malformed_storages current_self svc r a Hm).
      rewrite (malformed_affectees current_self svc r a Hm). simpl.
      split; [|done]. by destruct (tgt_filter (modifier a)).
    - destruct (well_formed_storages current_self svc r a Hm) as [l Hl].
      unfold register_affector, unregister_affector. rewrite Hl. simpl.
      split; [done|]. split; [done|].
      revert Hm Hl.
      unfold malformed, get_affectees, __get_affector_storages,
        __get_affectees_item, __get_affectees_domain,
        __get_affectees_domain_group, __get_affectees_domain_skillrq,
        __get_affectees_owner_skillrq, __get_affector_storages_item,
        __get_affector_storages_domain, __get_affector_storages_domain_group,
        __get_affector_storages_domain_skillrq.
      destruct (tgt_filter (modifier a)); try done;
        try (destruct (__contextize_tgt_filter_domain svc a); by simpl);
        by destruct (tgt_domain (modifier a)). }
  split; [done|]. split; [done|]. split; [done|].
  intros Hf. rewrite Hlog. unfold malformed. by rewrite Hf.
Qed.

End reporting.

(** ** The further properties on the small fit *)

Section more_on_the_small_fit.
Import Fixture Histories.

(** The ship first or the ship last: the same register. *)
Lemma register_order_independent_witness :
  run current_self (steady svc ship_last)
  = run current_self (steady svc ship_first).
Proof.
  apply (register_order_independent current_self svc ship_last ship_first).
  - evaluate.
  - evaluate.
Defined.

(** The loaded fit, taken apart, leaves the empty register. *)
Lemma register_empty_again_witness :
  run current_self (steady svc taken_apart) = init.
Proof.
  apply (register_empty_again current_self svc taken_apart).
  - evaluate.
  - evaluate.
Defined.

(** The group modifier without argument reaches the item without group
    through [get_affectors], and [get_affectees] does not return the
    item. *)
Lemma get_affectors_are_affecting_witness :
  no_group ∈ registered groupless_calls
  ∧ ¬ groupless
      ∈ (get_affectees current_self svc
           (run current_self (steady svc groupless_calls)) no_group).1
  ∧ tgt_filter (modifier no_group) = ModTgtFilter.domain_group
  ∧ tgt_filter_extra_arg (modifier no_group) = None
  ∧ group_id groupless = None.
Proof.
  destruct (get_affectors_are_affecting current_self svc groupless_calls
              no_group groupless) as [Hreg Hor].
  - evaluate.
  - split; [exact Hreg|]. split; [evaluate|].
    destruct Hor as [Hin|Hgroup]; [|exact Hgroup].
    split; [reflexivity|]. split; reflexivity.
Defined.

(** In the loaded fit the ship is not registered: [to_ship] waits under
    the module and is active nowhere. *)
Lemma direct_affector_active_or_awaitable_witness :
  to_ship ∈ KeyedStorage.get (__affector_item_awaitable loaded) module
  ∧ to_ship ∉ KeyedStorage.get (__affector_item_active loaded) ship.
Proof.
  assert (to_ship ∈ registered loaded_calls) as Hreg by evaluate.
  assert (tgt_domain (modifier to_ship)
            ∈ [ModDomain.ship; ModDomain.character; ModDomain.self])
    as Hdom by evaluate.
  pose proof (direct_affector_active_or_awaitable current_self svc
                loaded_calls to_ship Hreg eq_refl Hdom) as Hstate.
  split.
  - destruct (Hstate module) as (_ & Hwait & _).
    apply Hwait. split; [reflexivity|].
    intros t [= <-]. evaluate.
  - destruct (Hstate ship) as (Hactive & _ & _).
    intros Hin. apply Hactive in Hin as [_ Hin]. revert Hin. evaluate.
Defined.

(** In the loaded fit [to_other] is recorded under the module and active
    on the charge. *)
Lemma other_affector_record_and_active_witness :
  to_other ∈ KeyedStorage.get (__affector_item_other loaded) module
  ∧ to_other ∈ KeyedStorage.get (__affector_item_active loaded) charge.
Proof.
  assert (to_other ∈ registered loaded_calls) as Hreg by evaluate.
  pose proof (other_affector_record_and_active current_self svc
                loaded_calls to_other Hreg eq_refl eq_refl) as Hstate.
  split.
  - destruct (Hstate module) as (Hrecord & _ & _).
    apply Hrecord. reflexivity.
  - destruct (Hstate charge) as (_ & Hactive & _).
    apply Hactive. split; evaluate.
Defined.

(** [to_domain] is registered on the loaded fit and unregistered again. *)
Lemma register_unregister_affector_roundtrip_witness :
  (unregister_affector current_self svc
     (register_affector current_self svc loaded to_domain).1 to_domain).1
  = loaded.
Proof.
  apply (register_unregister_affector_roundtrip current_self svc
           loaded_calls to_domain).
  evaluate.
Defined.

(** [to_domain] is unregistered from the loaded fit, where it is not. *)
Lemma unregister_affector_absent_witness :
  (unregister_affector current_self svc loaded to_domain).1 = loaded.
Proof.
  apply (unregister_affector_absent current_self svc loaded_calls to_domain).
  evaluate.
Defined.

(** The ship is unregistered from the loaded fit, where it is not. *)
Lemma unregister_affectee_absent_witness :
  unregister_affectee loaded ship = loaded.
Proof.
  apply (unregister_affectee_absent current_self (steady svc loaded_calls)
           ship).
  evaluate.
Defined.

(** The module is unregistered from the loaded fit and registered
    again. *)
Lemma unregister_register_affectee_roundtrip_witness :
  register_affectee svc (unregister_affectee loaded module) module = loaded.
Proof.
  apply (unregister_register_affectee_roundtrip current_self svc
           loaded_calls module).
  evaluate.
Defined.

(** The charge, affectee of [to_other], is registered. *)
Lemma get_affectees_registered_witness :
  charge ∈ __affectee loaded.
Proof.
  apply (get_affectees_registered current_self (steady svc loaded_calls)
           svc to_other charge).
  evaluate.
Defined.

End more_on_the_small_fit.
